(** * Event resolution of the iCalendar platform and the ping id counter

    A shallow embedding of
    - [homeassistant/components/icalendar/calendar.py]
      (class [ICalendarCalendarData]) and
    - [homeassistant/components/ping/__init__.py]
    together with the properties their specification states.

    Python exceptions are values of an error monad, the wall clock and
    the fetched document are explicit inputs, and the libraries the
    component calls ([re], [icalendar], [recurring_ical_events]) are
    parameters of the development. *)

From Stdlib Require Import ZArith List Bool Lia String Ascii.
From Stdlib Require Import Permutation Sorted.
Import ListNotations.

Local Open Scope Z_scope.

(* ================================================================== *)
(** * Exceptions *)

(** The exceptions the modelled code can raise, under their Python names. *)
Inductive exn : Type :=
| ValueError      (* icalendar.Calendar.from_ical: document not parsable *)
| KeyError        (* x["DTSTART"] on an event without that property     *)
| AttributeError  (* event.get("DTSTART").dt when get returned None     *)
| TypeError       (* comparing a naive with an aware datetime           *)
| re_error        (* re.compile: invalid regular expression             *)
| OverflowError.  (* date arithmetic leaving the years 1..9999          *)

Inductive result (A : Type) : Type :=
| Ok (a : A)
| Raise (e : exn).
Arguments Ok {A} a.
Arguments Raise {A} e.

Definition bind {A B : Type} (m : result A) (f : A -> result B) : result B :=
  match m with
  | Ok a => f a
  | Raise e => Raise e
  end.

Notation "x <- m ;; k" := (bind m (fun x => k))
  (at level 61, m at next level, right associativity).

Fixpoint mapM {A B : Type} (f : A -> result B) (l : list A) : result (list B) :=
  match l with
  | [] => Ok []
  | x :: l' => y <- f x ;; ys <- mapM f l' ;; Ok (y :: ys)
  end.

(* ================================================================== *)
(** * Dates, datetimes and timedeltas *)

Module Time.

(** Microseconds in a day: the resolution of [datetime.timedelta]. *)
Definition us_per_day : Z := 86400000000.

(** [datetime.date]: the proleptic Gregorian ordinal of the day. *)
Definition date : Type := Z.

(** [datetime.timedelta]: a signed number of microseconds. *)
Definition timedelta : Type := Z.

(** [timedelta(days=n)]. *)
Definition timedelta_days (n : Z) : timedelta := n * us_per_day.

(** [td.days]: Python normalises a timedelta so that
    [0 <= seconds < 86400], hence [days] is the floor. *)
Definition td_days (td : timedelta) : Z := td / us_per_day.

(** A [tzinfo] object, modelled by its offset from UTC in microseconds:
    a zone of fixed offset, without daylight-saving transitions. *)
Record tzinfo : Type := mktz { utcoffset : Z }.

(** [datetime.datetime]: the wall clock reading in microseconds since
    the start of ordinal day 0, and the optional time zone.
    [tz = None] is a naive (floating) datetime. *)
Record datetime : Type := mkdt { wall : Z; tz : option tzinfo }.

(** The value of a [DTSTART]/[DTEND] property ([.dt]):
    [isinstance(obj, datetime)] separates the two cases. *)
Inductive dtvalue : Type :=
| DateV (d : date)
| DateTimeV (t : datetime).

(** [date.max.toordinal()]: the ordinal of 9999-12-31.  The ordinals
    of dates run from 1 (0001-01-01) to this one. *)
Definition MAXORDINAL : Z := 3652059.

(** The largest number of days a timedelta holds, either way. *)
Definition MAX_DELTA_DAYS : Z := 999999999.

(** The ordinal is that of a date. *)
Definition ordinal_ok (o : Z) : bool := (0 <? o) && (o <=? MAXORDINAL).

(** [timedelta(days=n)]: raises [OverflowError] beyond the range of
    timedeltas. *)
Definition timedelta_new_days (n : Z) : result timedelta :=
  if (- MAX_DELTA_DAYS <=? n) && (n <=? MAX_DELTA_DAYS)
  then Ok (timedelta_days n)
  else Raise OverflowError.

(** [d + td] for a date: the date moves by the whole days of the
    timedelta, and the sum raises [OverflowError] when it leaves the
    range of dates. *)
Definition date_add (d : date) (td : timedelta) : result date :=
  let o := d + td_days td in
  if ordinal_ok o then Ok o else Raise OverflowError.

(** [t + td] for a datetime: wall clock arithmetic that keeps the
    tzinfo, and raises [OverflowError] when the day of the sum leaves
    the range of dates. *)
Definition datetime_add (t : datetime) (td : timedelta) : result datetime :=
  let w := wall t + td in
  if ordinal_ok (w / us_per_day) then Ok (mkdt w (tz t))
  else Raise OverflowError.

(** [obj + td] for a date or a datetime. *)
Definition dt_add (v : dtvalue) (td : timedelta) : result dtvalue :=
  match v with
  | DateV d => o <- date_add d td ;; Ok (DateV o)
  | DateTimeV t => t' <- datetime_add t td ;; Ok (DateTimeV t')
  end.

(** [datetime.combine(d, time.min)]: naive midnight of the day. *)
Definition combine_min (d : date) : datetime := mkdt (d * us_per_day) None.

(** [obj.replace(tzinfo=z)]. *)
Definition replace_tzinfo (t : datetime) (z : option tzinfo) : datetime :=
  mkdt (wall t) z.

(** The UTC instant of an aware datetime. *)
Definition utc_of (w : Z) (z : tzinfo) : Z := w - utcoffset z.

(** [a < b] on datetimes: both naive compare wall clocks, both aware
    compare instants, a mix raises [TypeError]. *)
Definition datetime_lt (a b : datetime) : result bool :=
  match tz a, tz b with
  | None, None => Ok (wall a <? wall b)
  | Some za, Some zb => Ok (utc_of (wall a) za <? utc_of (wall b) zb)
  | _, _ => Raise TypeError
  end.

(** [a >= b] on datetimes. *)
Definition datetime_ge (a b : datetime) : result bool :=
  match tz a, tz b with
  | None, None => Ok (wall b <=? wall a)
  | Some za, Some zb => Ok (utc_of (wall b) zb <=? utc_of (wall a) za)
  | _, _ => Raise TypeError
  end.

(** [dt.astimezone(z)] of an aware datetime: same instant, other zone. *)
Definition astimezone (t : datetime) (from to : tzinfo) : datetime :=
  mkdt (wall t - utcoffset from + utcoffset to) (Some to).

End Time.
Import Time.

(* ================================================================== *)
(** * Events *)

(** An event as [recurring_ical_events] returns it: a dictionary from
    property names to values typed by the property.  A property that is
    absent from the dictionary is [None].  Every property occurs at
    most once (the parser turns a repeated property into a list, which
    this record does not hold), and a text is a sequence of characters
    with code points below 256, one [ascii] each. *)
Record Event : Type := mkEvent {
  UID : option string;
  SUMMARY : option string;
  LOCATION : option string;
  DESCRIPTION : option string;
  DTSTART : option dtvalue;
  DTEND : option dtvalue;
  DURATION : option timedelta
}.

(** [get_attr_value(obj, attribute)] for the text properties. *)
Definition get_attr_value (field : Event -> option string) (obj : Event)
  : option string :=
  match field obj with
  | Some v => Some v
  | None => None
  end.

(** [obj.get("DTSTART").dt]: [get] returns [None] for a missing key and
    the attribute access then raises. *)
Definition get_dtstart_dt (obj : Event) : result dtvalue :=
  match DTSTART obj with
  | Some v => Ok v
  | None => Raise AttributeError
  end.

(** [x["DTSTART"].dt]: subscripting raises [KeyError] for a missing key. *)
Definition item_dtstart_dt (x : Event) : result dtvalue :=
  match DTSTART x with
  | Some v => Ok v
  | None => Raise KeyError
  end.

(** [ICalendarCalendarData.get_end_date]. *)
Definition get_end_date (obj : Event) : result dtvalue :=
  match DTEND obj with
  | Some e => Ok e
  | None =>
      match DURATION obj with
      | Some d => s <- get_dtstart_dt obj ;; dt_add s d
      | None => s <- get_dtstart_dt obj ;; dt_add s (timedelta_days 1)
      end
  end.

(** [ICalendarCalendarData.is_all_day]. *)
Definition is_all_day (event : Event) : result bool :=
  s <- get_dtstart_dt event ;;
  Ok (negb match s with DateTimeV _ => true | DateV _ => false end).

(** The value stored under ["start"] and ["end"]: a one-entry dictionary
    keyed ["dateTime"] or ["date"].  The entry holds the ISO rendering of
    the value; the model keeps the value itself. *)
Inductive hass_date : Type :=
| HDateTime (t : datetime)
| HDate (d : date).

(** [ICalendarCalendarData.get_hass_date]. *)
Definition get_hass_date (obj : dtvalue) : hass_date :=
  match obj with
  | DateTimeV t => HDateTime t
  | DateV d => HDate d
  end.

(* ================================================================== *)
(** * The libraries and the host the component calls into *)

(** Python's [re] module, as far as [is_matching] uses it:
    [re.compile(search)] either raises [re.error] ([None]) or returns a
    compiled pattern; [pattern.match(text)] tries the pattern at the
    beginning of [text] and returns a match object or [None]. *)
Class ReModule : Type := {
  Pattern : Type;
  Match : Type;
  re_compile : string -> option Pattern;
  pattern_match : Pattern -> string -> option Match
}.

(** [homeassistant.util.dt]: the configured default time zone. *)
Class DtUtil : Type := {
  DEFAULT_TIME_ZONE : tzinfo
}.

(** [icalendar.Calendar.from_ical] ([None]: the document cannot be
    parsed, a [ValueError]) and
    [recurring_ical_events.of(calendar).between(start, end)]. *)
Class ICalLib : Type := {
  Calendar : Type;
  from_ical : string -> option Calendar;
  between : Calendar -> datetime -> datetime -> list Event
}.

(** What a call reads from the outside: the body [requests.get] returns
    for a url and credentials, the naive local time [datetime.now()]
    gives when [update] starts, and the UTC instants the successive
    [dt.now()] calls of one [update] observe, by call number. *)
Record World : Type := mkWorld {
  requests_get_text : string -> option (string * string) -> string;
  datetime_now : Z;
  dt_now_utc : nat -> Z
}.

(* ================================================================== *)
(** * ICalendarCalendarData *)

(** The result of the boolean expression of [is_matching]: [and]/[or]
    return one of their operands, so the value is [True], [False],
    [None] or a match object. *)
Inductive pyval (M : Type) : Type :=
| PyTrue
| PyFalse
| PyNone
| PyMatch (m : M).
Arguments PyTrue {M}.
Arguments PyFalse {M}.
Arguments PyNone {M}.
Arguments PyMatch {M} m.

(** Truth value of such a result. *)
Definition truthy {M : Type} (v : pyval M) : bool :=
  match v with
  | PyTrue | PyMatch _ => true
  | PyFalse | PyNone => false
  end.

(** [a or b]. *)
Definition py_or {M : Type} (a b : pyval M) : pyval M :=
  if truthy a then a else b.

(** The entity dictionary [update] stores in [self.event]. *)
Record hass_event : Type := mkHassEvent {
  summary : option string;
  start : hass_date;
  end_ : hass_date;
  location : option string;
  description : option string
}.

(** One entry of the list [async_get_events] returns; [start] and [end]
    are ISO strings there. *)
Record event_data : Type := mkEventData {
  data_uid : option string;
  data_summary : option string;
  data_start : string;
  data_end : string;
  data_location : option string;
  data_description : option string
}.

(** The attributes of an [ICalendarCalendarData] object. *)
Record ICalendarCalendarData : Type := mkData {
  url : string;
  auth : option (string * string);
  days : Z;
  include_all_day : bool;
  search : option string;
  event : option hass_event
}.

(** Truth value of an optional string argument ([None] and the empty
    string are false). *)
Definition str_truthy (s : option string) : bool :=
  match s with
  | None => false
  | Some EmptyString => false
  | Some _ => true
  end.

(** [ICalendarCalendarData.__init__]. *)
Definition init (url_ : string) (username password : option string)
  (days_ : Z) (include_all_day_ : bool) (search_ : option string)
  : ICalendarCalendarData :=
  mkData url_
    (match username, password with
     | Some u, Some p =>
         if str_truthy username && str_truthy password then Some (u, p) else None
     | _, _ => None
     end)
    days_ include_all_day_ search_ None.

Section Resolver.

Context {re : ReModule} {dtu : DtUtil} {ical : ICalLib}.

(** Modelled from the spec: [dt.as_local] of [homeassistant/util/dt.py],
    which is not among the sources.  The specification has a date-only
    value normalised to local midnight in the configured time zone, so
    a naive datetime is read as a wall clock time of that zone; an aware
    one is converted to the zone. *)
Definition as_local (dattim : datetime) : datetime :=
  match tz dattim with
  | None => replace_tzinfo dattim (Some DEFAULT_TIME_ZONE)
  | Some z => astimezone dattim z DEFAULT_TIME_ZONE
  end.

(** [dt.now()] when the clock shows the UTC instant [utc]: an aware
    datetime in the default time zone. *)
Definition dt_now (utc : Z) : datetime :=
  mkdt (utc + utcoffset DEFAULT_TIME_ZONE) (Some DEFAULT_TIME_ZONE).

(** [ICalendarCalendarData.to_datetime]. *)
Definition to_datetime (obj : dtvalue) : datetime :=
  match obj with
  | DateTimeV t =>
      match tz t with
      | None => replace_tzinfo t (Some DEFAULT_TIME_ZONE)
      | Some _ => t
      end
  | DateV d => as_local (combine_min d)
  end.

(** One clause ["F" in event and pattern.match(event.get("F"))]. *)
Definition match_clause (pattern : Pattern) (field : option string)
  : pyval Match :=
  match field with
  | None => PyFalse
  | Some text =>
      match pattern_match pattern text with
      | Some m => PyMatch m
      | None => PyNone
      end
  end.

(** [ICalendarCalendarData.is_matching]. *)
Definition is_matching (event_ : Event) (search_ : option string)
  : result (pyval Match) :=
  match search_ with
  | None => Ok PyTrue
  | Some s =>
      match re_compile s with
      | None => Raise re_error
      | Some pattern =>
          Ok (py_or (py_or (match_clause pattern (SUMMARY event_))
                           (match_clause pattern (LOCATION event_)))
                    (match_clause pattern (DESCRIPTION event_)))
      end
  end.

(** [ICalendarCalendarData.is_over], with the instant [dt.now()] reads. *)
Definition is_over (now_utc : Z) (event_ : Event) : result bool :=
  e <- get_end_date event_ ;;
  datetime_ge (dt_now now_utc) (to_datetime e).

End Resolver.

(* ================================================================== *)
(** * list.sort(key=...) *)

Section ListSort.

Variables A K : Type.
Variable key : A -> result K.
Variable lt : K -> K -> result bool.

(** Insert a decorated element into a sorted run, behind every element
    it is not smaller than (the [pivot < p] test of the insertion
    step of [list.sort]). *)
Fixpoint insert_run (x : K * A) (run : list (K * A)) : result (list (K * A)) :=
  match run with
  | [] => Ok [x]
  | y :: run' =>
      b <- lt (fst x) (fst y) ;;
      if b then Ok (x :: y :: run')
      else r <- insert_run x run' ;; Ok (y :: r)
  end.

(** Extend the sorted run [run] with the elements of [l], left to right. *)
Fixpoint sort_run (run l : list (K * A)) : result (list (K * A)) :=
  match l with
  | [] => Ok run
  | x :: l' => run' <- insert_run x run ;; sort_run run' l'
  end.

(** [l.sort(key=key)]: every key is computed first (an exception of
    [key] leaves the sort), the decorated list is sorted with [<] on the
    keys only, and the elements are returned without their keys.
    [list.sort] is documented stable; whatever its merge strategy, on
    keys that [<] orders totally the outcome is the one of this stable
    insertion sort (see [stable_sort_unique]). *)
Definition list_sort (l : list A) : result (list A) :=
  ks <- mapM (fun x => k <- key x ;; Ok (k, x)) l ;;
  s <- sort_run [] ks ;;
  Ok (map snd s).

End ListSort.

Arguments insert_run {A K} lt x run.
Arguments sort_run {A K} lt run l.
Arguments list_sort {A K} key lt l.

Section StableSort.

Variable A : Type.
Variable rank : A -> Z.

(** The sort above when keys are integers that never fail to compare. *)
Fixpoint insert_by (x : A) (run : list A) : list A :=
  match run with
  | [] => [x]
  | y :: run' => if rank x <? rank y then x :: y :: run' else y :: insert_by x run'
  end.

Fixpoint sort_by_run (run l : list A) : list A :=
  match l with
  | [] => run
  | x :: l' => sort_by_run (insert_by x run) l'
  end.

Definition stable_sort (l : list A) : list A := sort_by_run [] l.

(** The elements of [l] of rank [k], in their order in [l]. *)
Definition of_rank (k : Z) (l : list A) : list A :=
  filter (fun x => rank x =? k) l.

(** Ascending by rank. *)
Definition ascending (l : list A) : Prop :=
  StronglySorted (fun a b => rank a <= rank b) l.

End StableSort.

Arguments insert_by {A} rank x run.
Arguments sort_by_run {A} rank run l.
Arguments stable_sort {A} rank l.
Arguments of_rank {A} rank k l.
Arguments ascending {A} rank l.

Section Update.

Context {re : ReModule} {dtu : DtUtil} {ical : ICalLib}.

(** The sort key of [update]: [lambda x: self.to_datetime(x["DTSTART"].dt)]. *)
Definition sort_key (x : Event) : result datetime :=
  d <- item_dtstart_dt x ;; Ok (to_datetime d).

(** [events.sort(key=lambda x: self.to_datetime(x["DTSTART"].dt))]. *)
Definition sort_events (events : list Event) : result (list Event) :=
  list_sort sort_key datetime_lt events.

(** The generator expression of [update] under [next(..., None)]: the
    first event of [events] that passes the three tests, which are
    evaluated left to right and only as far as needed.  [clock] gives
    the instant of each [dt.now()] call and [n] counts the calls made. *)
Fixpoint next_event (search_ : option string) (include_all_day_ : bool)
  (clock : nat -> Z) (n : nat) (events : list Event) : result (option Event) :=
  match events with
  | [] => Ok None
  | e :: rest =>
      m <- is_matching e search_ ;;
      if truthy m then
        a <- is_all_day e ;;
        if negb a || include_all_day_ then
          o <- is_over (clock n) e ;;
          if negb o then Ok (Some e)
          else next_event search_ include_all_day_ clock (S n) rest
        else next_event search_ include_all_day_ clock n rest
      else next_event search_ include_all_day_ clock n rest
  end.

(** [selectCurrent]: the sort followed by the search, on a list of
    events that was already fetched. *)
Definition select_current (search_ : option string) (include_all_day_ : bool)
  (clock : nat -> Z) (events : list Event) : result (option Event) :=
  sorted <- sort_events events ;;
  next_event search_ include_all_day_ clock 0 sorted.

(** [ICalendarCalendarData.icalendar_get_events]. *)
Definition icalendar_get_events (self : ICalendarCalendarData) (w : World)
  (start_date end_date : datetime) : result (list Event) :=
  match from_ical (requests_get_text w (url self) (auth self)) with
  | None => Raise ValueError
  | Some calendar =>
      Ok (between calendar (replace_tzinfo start_date None)
                           (replace_tzinfo end_date None))
  end.

(** The dictionary [update] builds from the selected event. *)
Definition populate (e : Event) : result hass_event :=
  s <- get_dtstart_dt e ;;
  en <- get_end_date e ;;
  Ok (mkHassEvent (SUMMARY e) (get_hass_date s) (get_hass_date en)
        (get_attr_value LOCATION e) (get_attr_value DESCRIPTION e)).

(** [self.event = v]. *)
Definition set_event (self : ICalendarCalendarData) (v : option hass_event)
  : ICalendarCalendarData :=
  mkData (url self) (auth self) (days self) (include_all_day self)
    (search self) v.

(** [datetime.now().replace(hour=0, minute=0, second=0, microsecond=0)]. *)
Definition start_of_today (w : World) : datetime :=
  mkdt (datetime_now w / us_per_day * us_per_day) None.

(** [start_date + timedelta(days=self.days)]: building the timedelta
    and adding it can both raise [OverflowError]. *)
Definition window_end (self : ICalendarCalendarData) (w : World)
  : result datetime :=
  td <- timedelta_new_days (days self) ;;
  datetime_add (start_of_today w) td.

(** [ICalendarCalendarData.update], without the [Throttle] decorator:
    the object after the call, or the exception that left it unchanged. *)
Definition update (self : ICalendarCalendarData) (w : World)
  : result ICalendarCalendarData :=
  let start_date := start_of_today w in
  end_date <- window_end self w ;;
  events <- icalendar_get_events self w start_date end_date ;;
  found <- select_current (search self) (include_all_day self)
             (dt_now_utc w) events ;;
  match found with
  | None => Ok (set_event self None)
  | Some e => ev <- populate e ;; Ok (set_event self (Some ev))
  end.

(** The value [update] leaves in [self.event], or its exception. *)
Definition resolve (self : ICalendarCalendarData) (w : World)
  : result (option hass_event) :=
  s <- update self w ;; Ok (event s).

(** The three tests of the generator as one boolean, for an event on
    which none of them raises; [false] when one does. *)
Definition qualifies (search_ : option string) (include_all_day_ : bool)
  (now_utc : Z) (e : Event) : bool :=
  match (m <- is_matching e search_ ;;
         a <- is_all_day e ;;
         o <- is_over now_utc e ;;
         Ok (truthy m && (negb a || include_all_day_) && negb o)) with
  | Ok b => b
  | Raise _ => false
  end.

(** The instant an event starts at, for events that have a start. *)
Definition start_instant (e : Event) : Z :=
  match DTSTART e with
  | Some v =>
      let t := to_datetime v in
      match tz t with
      | Some z => utc_of (wall t) z
      | None => wall t
      end
  | None => 0
  end.

(** An event with the key [sort_events] sorts it by. *)
Definition decorate (x : Event) : datetime * Event :=
  (match DTSTART x with
   | Some d => to_datetime d
   | None => mkdt 0 None
   end, x).

(** None of the three tests of the generator raises on the event. *)
Definition tests_return (search_ : option string) (now_utc : Z) (e : Event)
  : Prop :=
  exists m a o,
    is_matching e search_ = Ok m /\ is_all_day e = Ok a /\
    is_over now_utc e = Ok o.

(** The search string is usable: unset, or accepted by [re.compile]. *)
Definition search_ok (search_ : option string) : Prop :=
  match search_ with
  | None => True
  | Some s => re_compile s <> None
  end.

(** The events [update] gets from the fetched document. *)
Definition fetched (self : ICalendarCalendarData) (w : World)
  : result (list Event) :=
  end_date <- window_end self w ;;
  icalendar_get_events self w (start_of_today w) end_date.

End Update.

(** The event carries the mandatory start. *)
Definition has_start (e : Event) : Prop := DTSTART e <> None.

(** Deriving the end of the event stays within the range of dates. *)
Definition no_overflow (e : Event) : Prop :=
  get_end_date e <> Raise OverflowError.

(** The event carries none of the three text properties. *)
Definition no_text (e : Event) : Prop :=
  SUMMARY e = None /\ LOCATION e = None /\ DESCRIPTION e = None.

(** Two objects configured alike; [self.event] may differ. *)
Definition same_config (a b : ICalendarCalendarData) : Prop :=
  url a = url b /\ auth a = auth b /\ days a = days b /\
  include_all_day a = include_all_day b /\ search a = search b.

Section GetEvents.

Context {re : ReModule} {dtu : DtUtil} {ical : ICalLib}.

(** [get_date(d).isoformat()]: [get_date] belongs to
    [homeassistant.components.calendar] and is taken as given. *)
Variable get_date_isoformat : hass_date -> string.

(** The dictionary [async_get_events] builds for one event. *)
Definition event_to_data (e : Event) : result event_data :=
  s <- get_dtstart_dt e ;;
  en <- get_end_date e ;;
  Ok (mkEventData
        (match UID e with Some u => Some u | None => None end)
        (SUMMARY e)
        (get_date_isoformat (get_hass_date s))
        (get_date_isoformat (get_hass_date en))
        (get_attr_value LOCATION e)
        (get_attr_value DESCRIPTION e)).

(** [ICalendarCalendarData.async_get_events]. *)
Definition async_get_events (self : ICalendarCalendarData) (w : World)
  (start_date end_date : datetime) : result (list event_data) :=
  events <- icalendar_get_events self w start_date end_date ;;
  mapM event_to_data events.

End GetEvents.

(* ================================================================== *)
(** * A regular expression engine for a fragment of [re]

    The fragment: ordinary characters, [.], [^], [$], the greedy
    quantifiers [*], [+], [?], alternation [|], groups [( )] and a
    backslash before a special character.  [compile] tells an invalid
    pattern ([re.error]) from one the fragment does not cover. *)

Module PyRe.

Local Open Scope char_scope.

Inductive regex : Type :=
| Eps
| Chr (c : ascii)
| Dot
| Bol
| Eol
| Cat (r1 r2 : regex)
| Alt (r1 r2 : regex)
| Star (r : regex).

Definition newline : ascii := "010".

(** Backtracking matcher in continuation style: [run r pos s k] matches
    [r] at offset [pos] against the rest [s] of the text and hands the
    new offset and rest to [k].  The left alternative and the longer
    repetition are tried first.  An iteration of a star that consumes
    nothing is not repeated. *)
Fixpoint run (r : regex) (pos : nat) (s : list ascii)
  (k : nat -> list ascii -> option nat) {struct r} : option nat :=
  match r with
  | Eps => k pos s
  | Chr c =>
      match s with
      | a :: s' => if Ascii.eqb a c then k (S pos) s' else None
      | [] => None
      end
  | Dot =>
      match s with
      | a :: s' => if Ascii.eqb a newline then None else k (S pos) s'
      | [] => None
      end
  | Bol => if Nat.eqb pos 0 then k pos s else None
  | Eol =>
      match s with
      | [] => k pos s
      | [a] => if Ascii.eqb a newline then k pos s else None
      | _ => None
      end
  | Cat r1 r2 => run r1 pos s (fun p t => run r2 p t k)
  | Alt r1 r2 =>
      match run r1 pos s k with
      | Some e => Some e
      | None => run r2 pos s k
      end
  | Star r1 =>
      (fix loop (fuel : nat) (pos : nat) (s : list ascii) : option nat :=
         match fuel with
         | O => k pos s
         | S fuel' =>
             match run r1 pos s
                     (fun p t =>
                        if Nat.ltb (List.length t) (List.length s)
                        then loop fuel' p t else None) with
             | Some e => Some e
             | None => k pos s
             end
         end) (List.length s) pos s
  end.

(** [pattern.match(text)]: match at the beginning of the text; the match
    object is represented by the offset where the match ends. *)
Definition match_ (r : regex) (text : string) : option nat :=
  run r 0 (list_ascii_of_string text) (fun p _ => Some p).

(** [pattern.fullmatch(text)]: the match has to end at the end. *)
Definition fullmatch (r : regex) (text : string) : option nat :=
  run r 0 (list_ascii_of_string text)
    (fun p t => match t with [] => Some p | _ => None end).

Inductive perror : Type :=
| Invalid       (* re.error *)
| Unsupported.  (* valid or not, outside the fragment *)

Inductive presult : Type :=
| POk (r : regex) (rest : list ascii)
| PErr (e : perror).

Definition is_special (c : ascii) : bool :=
  existsb (Ascii.eqb c)
    ["."; "^"; "$"; "*"; "+"; "?"; "{"; "}"; "["; "]"; "\"; "|"; "("; ")"].

Definition is_anchor (r : regex) : bool :=
  match r with
  | Bol | Eol => true
  | _ => false
  end.

(** A quantifier after the item [a]: repeating an anchor is an error
    (nothing to repeat), so is a [*] on a repetition (multiple repeat);
    lazy and possessive forms are outside the fragment. *)
Definition quantify (a : regex) (rest : list ascii) : presult :=
  let after (q : regex) (rest' : list ascii) :=
    if is_anchor a then PErr Invalid
    else match rest' with
         | "*" :: _ => PErr Invalid
         | "+" :: _ | "?" :: _ => PErr Unsupported
         | _ => POk q rest'
         end in
  match rest with
  | "*" :: rest' => after (Star a) rest'
  | "+" :: rest' => after (Cat a (Star a)) rest'
  | "?" :: rest' => after (Alt a Eps) rest'
  | _ => POk a rest
  end.

(** Recursive descent: alternatives of sequences of quantified items. *)
Fixpoint parse_alt (fuel : nat) (s : list ascii) {struct fuel} : presult :=
  match fuel with
  | O => PErr Unsupported
  | S f =>
      match parse_seq f s with
      | PErr e => PErr e
      | POk r ("|" :: rest) =>
          match parse_alt f rest with
          | PErr e => PErr e
          | POk r2 rest2 => POk (Alt r r2) rest2
          end
      | POk r rest => POk r rest
      end
  end
with parse_seq (fuel : nat) (s : list ascii) {struct fuel} : presult :=
  match fuel with
  | O => PErr Unsupported
  | S f =>
      match s with
      | [] => POk Eps []
      | "|" :: _ | ")" :: _ => POk Eps s
      | c :: s' =>
          let item :=
            match c with
            | "(" =>
                match s' with
                | "?" :: _ => PErr Unsupported
                | _ =>
                    match parse_alt f s' with
                    | POk r (")" :: rest) => POk r rest
                    | POk _ _ => PErr Invalid
                    | PErr e => PErr e
                    end
                end
            | "\" =>
                match s' with
                | [] => PErr Invalid
                | d :: rest =>
                    if is_special d then POk (Chr d) rest else PErr Unsupported
                end
            | "." => POk Dot s'
            | "^" => POk Bol s'
            | "$" => POk Eol s'
            | "*" | "+" | "?" => PErr Invalid
            | "{" | "[" => PErr Unsupported
            | _ => POk (Chr c) s'
            end in
          match item with
          | PErr e => PErr e
          | POk a rest =>
              match quantify a rest with
              | PErr e => PErr e
              | POk q rest' =>
                  match parse_seq f rest' with
                  | PErr e => PErr e
                  | POk r2 rest2 => POk (Cat q r2) rest2
                  end
              end
          end
      end
  end.

(** [re.compile(s)] on the fragment. *)
Definition compile (s : string) : regex + perror :=
  let cs := list_ascii_of_string s in
  match parse_alt (2 * List.length cs + 2)%nat cs with
  | POk r [] => inl r
  | POk _ _ => inr Invalid
  | PErr e => inr e
  end.

(** The engine as an [re] module, for use on patterns of the fragment.
    It has no answer for a pattern outside the fragment and refuses it
    like an invalid one, where Python may accept it: nothing below
    gives it such a pattern, and what is proved of patterns in general
    is proved of every [ReModule]. *)
Definition engine : ReModule := {|
  Pattern := regex;
  Match := nat;
  re_compile := fun s => match compile s with inl r => Some r | inr _ => None end;
  pattern_match := match_
|}.

End PyRe.

(* ================================================================== *)
(** * The ping component *)

Module Ping.

(** [homeassistant/components/ping/const.py] is not among the sources:
    its two constants are taken as given. *)
Class Const : Type := {
  DEFAULT_START_ID : Z;
  MAX_PING_ID : Z
}.

(** [hass.data[DOMAIN]]. *)
Record ping_data : Type := mkPing {
  PING_PRIVS : option bool;
  PING_ID : Z
}.

(** [hass.data], as far as the component uses it: the entry under
    [DOMAIN], absent before [async_setup]. *)
Definition hass_data : Type := option ping_data.

(** [_can_use_icmp_lib_with_privilege]; [denied p] tells whether
    [icmp_ping(..., privileged=p)] raises [SocketPermissionError]. *)
Definition _can_use_icmp_lib_with_privilege (denied : bool -> bool)
  : option bool :=
  if denied true then
    if denied false then None else Some false
  else Some true.

Section WithConst.

Context {c : Const}.

(** [async_setup]: the data of the component after set-up. *)
Definition async_setup (denied : bool -> bool) (data : hass_data) : hass_data :=
  Some (mkPing (_can_use_icmp_lib_with_privilege denied) DEFAULT_START_ID).

(** [async_get_next_ping_id]: the id returned and the data afterwards. *)
Definition async_get_next_ping_id (data : hass_data)
  : result (Z * hass_data) :=
  match data with
  | None => Raise KeyError
  | Some d =>
      let current_id := PING_ID d in
      let next_id :=
        if current_id =? MAX_PING_ID then DEFAULT_START_ID
        else current_id + 1 in
      Ok (next_id, Some (mkPing (PING_PRIVS d) next_id))
  end.

(** [n] calls in a row; the ids they return, oldest first. *)
Fixpoint calls (n : nat) (data : hass_data) : result (list Z * hass_data) :=
  match n with
  | O => Ok ([], data)
  | S n' =>
      r <- async_get_next_ping_id data ;;
      rs <- calls n' (snd r) ;;
      Ok (fst r :: fst rs, snd rs)
  end.

(** The stored id lies in the id range. *)
Definition in_range (data : hass_data) : Prop :=
  match data with
  | Some d => DEFAULT_START_ID <= PING_ID d <= MAX_PING_ID
  | None => False
  end.

End WithConst.

End Ping.

(* ================================================================== *)
(** * ICalendarCalendarEventDevice and the platform set-up *)

(** What the device takes from [homeassistant.components.calendar] and
    [homeassistant.helpers.entity], none of which is among the sources:
    [calculate_offset(event, offset)] returns the event dictionary with
    its offset worked out, [is_offset_reached(event)] compares that
    offset with the clock, and [generate_entity_id] derives an entity
    id from the name. *)
Class CalendarHost : Type := {
  OffsetEvent : Type;
  calculate_offset : hass_event -> string -> OffsetEvent;
  is_offset_reached : World -> OffsetEvent -> bool;
  generate_entity_id : string -> string
}.

(** [OFFSET]. *)
Definition OFFSET : string := "!!".

(** The configuration [setup_platform] receives, after validation by
    [PLATFORM_SCHEMA]: the required keys are present and the defaults
    ([verify_ssl] true, [days] 7, [search] [".*"]) are filled in. *)
Record PlatformConfig : Type := mkConfig {
  CONF_URL : string;
  CONF_NAME : string;
  CONF_USERNAME : option string;
  CONF_PASSWORD : option string;
  CONF_VERIFY_SSL : bool;
  CONF_DAYS : Z;
  CONF_SEARCH : string
}.

Section Device.

Context {re : ReModule} {dtu : DtUtil} {ical : ICalLib} {host : CalendarHost}.

(** The attributes of an [ICalendarCalendarEventDevice]. *)
Record ICalendarCalendarEventDevice : Type := mkDevice {
  data : ICalendarCalendarData;
  entity_id : string;
  _event : option OffsetEvent;
  _name : string;
  _offset_reached : bool
}.

(** [ICalendarCalendarEventDevice.__init__]; [all_day] is the keyword
    argument that defaults to [False]. *)
Definition device_init (name_ url_ : string) (username password : option string)
  (entity_id_ : string) (days_ : Z) (search_ : option string) (all_day : bool)
  : ICalendarCalendarEventDevice :=
  mkDevice (init url_ username password days_ all_day search_)
    entity_id_ None name_ false.

(** [device_state_attributes]: the value under ["offset_reached"]. *)
Definition device_state_attributes (self : ICalendarCalendarEventDevice) : bool :=
  _offset_reached self.

(** [ICalendarCalendarEventDevice.async_get_events]. *)
Definition device_async_get_events (get_date_isoformat : hass_date -> string)
  (self : ICalendarCalendarEventDevice) (w : World)
  (start_date end_date : datetime) : result (list event_data) :=
  async_get_events get_date_isoformat (data self) w start_date end_date.

(** [ICalendarCalendarEventDevice.update]: the device after the call, or
    the exception of [self.data.update()].  [copy.deepcopy] leaves a
    value as it is. *)
Definition device_update (self : ICalendarCalendarEventDevice) (w : World)
  : result ICalendarCalendarEventDevice :=
  data' <- update (data self) w ;;
  match event data' with
  | None =>
      Ok (mkDevice data' (entity_id self) None (_name self)
            (_offset_reached self))
  | Some ev =>
      let ev' := calculate_offset ev OFFSET in
      Ok (mkDevice data' (entity_id self) (Some ev') (_name self)
            (is_offset_reached w ev'))
  end.

(** [setup_platform]: the entities it hands to [add_entities]. *)
Definition setup_platform (config : PlatformConfig)
  : list ICalendarCalendarEventDevice :=
  let url_ := CONF_URL config in
  let name_ := CONF_NAME config in
  let days_ := CONF_DAYS config in
  let search_ := CONF_SEARCH config in
  let username := CONF_USERNAME config in
  let password := CONF_PASSWORD config in
  let entity_id_ := generate_entity_id name_ in
  [device_init name_ url_ username password entity_id_ days_ (Some search_)
     false].

(** What holds of an entity of the platform at every point of its life. *)
Definition platform_invariant (config : PlatformConfig)
  (dev : ICalendarCalendarEventDevice) : Prop :=
  entity_id dev = generate_entity_id (CONF_NAME config) /\
  _name dev = CONF_NAME config /\
  url (data dev) = CONF_URL config /\
  days (data dev) = CONF_DAYS config /\
  search (data dev) = Some (CONF_SEARCH config) /\
  include_all_day (data dev) = false /\
  (_event dev = None <-> event (data dev) = None) /\
  (forall ev, event (data dev) = Some ev ->
              (exists t, start ev = HDateTime t) /\
              ~ (summary ev = None /\ location ev = None /\
                 description ev = None)).

(** A history of [update] calls on one device, one world per call.  A
    call that raises leaves the device as it was: every assignment of
    the two [update] methods comes after the last call that can raise. *)
Fixpoint run_updates (ws : list World) (self : ICalendarCalendarEventDevice)
  : ICalendarCalendarEventDevice :=
  match ws with
  | [] => self
  | w :: ws' =>
      match device_update self w with
      | Ok self' => run_updates ws' self'
      | Raise _ => run_updates ws' self
      end
  end.

End Device.

(* ================================================================== *)
(** * Notions the further properties are stated with *)

(** The instant a datetime denotes: the UTC instant of an aware one, the
    wall clock reading of a naive one. *)
Definition instant (t : datetime) : Z :=
  match tz t with
  | Some z => utc_of (wall t) z
  | None => wall t
  end.

(** How far [s + td] lies from [s]: a date only moves by whole days. *)
Definition effective_span (s : dtvalue) (td : timedelta) : Z :=
  match s with
  | DateV _ => td_days td * us_per_day
  | DateTimeV _ => td
  end.

(** ** What the patterns of the fragment match *)

Module PyReSem.

Import PyRe.

(** [Matches r pos s pos' s']: the pattern [r], tried at offset [pos]
    of the text where [s] is still to be read, matches up to offset
    [pos'], where [s'] is left.  [.] takes any character but the
    newline, [^] holds at offset 0 only, [$] holds at the end of the
    text and before a newline that ends it. *)
Inductive Matches : regex -> nat -> list ascii -> nat -> list ascii -> Prop :=
| MEps pos s : Matches Eps pos s pos s
| MChr c pos s : Matches (Chr c) pos (c :: s) (S pos) s
| MDot a pos s : a <> newline -> Matches Dot pos (a :: s) (S pos) s
| MBol s : Matches Bol 0%nat s 0%nat s
| MEol_end pos : Matches Eol pos [] pos []
| MEol_newline pos : Matches Eol pos [newline] pos [newline]
| MCat r1 r2 pos s p1 s1 p2 s2 :
    Matches r1 pos s p1 s1 -> Matches r2 p1 s1 p2 s2 ->
    Matches (Cat r1 r2) pos s p2 s2
| MAlt_left r1 r2 pos s p1 s1 :
    Matches r1 pos s p1 s1 -> Matches (Alt r1 r2) pos s p1 s1
| MAlt_right r1 r2 pos s p2 s2 :
    Matches r2 pos s p2 s2 -> Matches (Alt r1 r2) pos s p2 s2
| MStar_done r pos s : Matches (Star r) pos s pos s
| MStar_more r pos s p1 s1 p2 s2 :
    Matches r pos s p1 s1 -> Matches (Star r) p1 s1 p2 s2 ->
    Matches (Star r) pos s p2 s2.

(** Repetitions of [r] each of which reads at least one character. *)
Inductive Repeats (r : regex)
  : nat -> list ascii -> nat -> list ascii -> Prop :=
| Repeats_done pos s : Repeats r pos s pos s
| Repeats_more pos s p1 s1 p2 s2 :
    Matches r pos s p1 s1 -> (List.length s1 < List.length s)%nat ->
    Repeats r p1 s1 p2 s2 ->
    Repeats r pos s p2 s2.

Section StarLoop.

Variable r1 : regex.
Variable k : nat -> list ascii -> option nat.

(** The loop [run] enters for a star, by its own name. *)
Fixpoint star_loop (fuel : nat) (pos : nat) (s : list ascii) : option nat :=
  match fuel with
  | O => k pos s
  | S fuel' =>
      match run r1 pos s
              (fun p t =>
                 if Nat.ltb (List.length t) (List.length s)
                 then star_loop fuel' p t else None) with
      | Some e => Some e
      | None => k pos s
      end
  end.

End StarLoop.

(** The pattern matches at the beginning of the text: it matches a
    prefix [u] of it, whatever the rest. *)
Definition matches_prefix (r : regex) (text : string) : Prop :=
  exists u rest,
    list_ascii_of_string text = u ++ rest /\
    Matches r 0%nat (u ++ rest) (List.length u) rest.

(** The pattern matches the whole text. *)
Definition matches_whole (r : regex) (text : string) : Prop :=
  exists pos', Matches r 0%nat (list_ascii_of_string text) pos' [].

(** An [re] module whose [match] is, on the patterns of the fragment,
    the match at the beginning of the text. *)
Definition prefix_semantics (re : ReModule) : Prop :=
  forall s r,
    compile s = inl r ->
    exists p,
      re_compile s = Some p /\
      forall text, pattern_match p text <> None <-> matches_prefix r text.

End PyReSem.

Module PingCycle.

Section WithConst.

Context {c : Ping.Const}.

(** The number of ids in the range. *)
Definition period : Z := Ping.MAX_PING_ID - Ping.DEFAULT_START_ID + 1.

(** The id [k] steps after [id0], counting round the range. *)
Definition id_after (id0 k : Z) : Z :=
  Ping.DEFAULT_START_ID + (id0 - Ping.DEFAULT_START_ID + k) mod period.

(** The ids [n] calls return when the stored id is [id0]. *)
Definition ids_from (id0 : Z) (n : nat) : list Z :=
  map (fun k => id_after id0 (Z.of_nat k + 1)) (seq 0 n).

End WithConst.

End PingCycle.

(* ================================================================== *)
(** * Sample data *)

Module Sample.

Definition us_per_hour : Z := 3600000000.

(** A default time zone one hour east of UTC. *)
Definition cet : DtUtil := {| DEFAULT_TIME_ZONE := mktz us_per_hour |}.

(** A calendar library double: every non-empty document parses, to the
    given list of events, whatever the window. *)
Definition canned (events : list Event) : ICalLib := {|
  Calendar := list Event;
  from_ical := fun doc =>
    match doc with
    | EmptyString => None
    | _ => Some events
    end;
  between := fun calendar _ _ => calendar
|}.

(** 2024-01-01 as an ordinal. *)
Definition jan1 : date := 738886.

(** A naive datetime on 2024-01-01 at the given hour. *)
Definition jan1_at (hour : Z) : datetime :=
  mkdt (jan1 * us_per_day + hour * us_per_hour) None.

(** The instant at which the clocks of [cet] show that hour of 2024-01-01. *)
Definition jan1_instant (hour : Z) : Z :=
  jan1 * us_per_day + hour * us_per_hour - us_per_hour.

(** Occurrence A: all day, 2024-01-01. *)
Definition occ_a : Event :=
  mkEvent None (Some "A"%string) None None (Some (DateV jan1)) None None.

(** Occurrence B: 2024-01-01T10:00, one hour long. *)
Definition occ_b : Event :=
  mkEvent None (Some "B"%string) None None
    (Some (DateTimeV (jan1_at 10))) None (Some us_per_hour).

(** An event at noon of 9999-12-31, the last day there is, with
    neither end nor duration. *)
Definition last_day : Event :=
  mkEvent None (Some "L"%string) None None
    (Some (DateTimeV (mkdt (MAXORDINAL * us_per_day + 12 * us_per_hour) None)))
    None None.

(** An event with a start and nothing else. *)
Definition bare : Event :=
  mkEvent None None None None (Some (DateV jan1)) None None.

(** An event without a start. *)
Definition startless : Event :=
  mkEvent None (Some "x"%string) None None None None None.

Definition with_summary (text : string) : Event :=
  mkEvent None (Some text) None None (Some (DateTimeV (jan1_at 10))) None None.

(** A world whose document is [doc] and whose clocks stand still. *)
Definition world (doc : string) (local_now utc_now : Z) : World :=
  mkWorld (fun _ _ => doc) local_now (fun _ => utc_now).

(** The world at the given hour of 2024-01-01 in [cet]. *)
Definition jan1_world (hour : Z) : World :=
  world "BEGIN:VCALENDAR"%string
    (jan1 * us_per_day + hour * us_per_hour) (jan1_instant hour).

(** A calendar object watching a week, without all-day events. *)
Definition watcher (search_ : option string) : ICalendarCalendarData :=
  init "https://example.org/cal.ics"%string None None 7 false search_.

(** A rendering of dates that forgets them, where the text is of no
    interest. *)
Definition no_iso : hass_date -> string := fun _ => EmptyString.

(** A calendar host double: the offset is left out of the event and
    counts as reached. *)
Definition plain_host : CalendarHost := {|
  OffsetEvent := hass_event;
  calculate_offset := fun ev _ => ev;
  is_offset_reached := fun _ _ => true;
  generate_entity_id := fun name_ => ("calendar." ++ name_)%string
|}.

(** A validated platform configuration. *)
Definition office : PlatformConfig :=
  mkConfig "https://example.org/cal.ics"%string "office"%string
    None None true 7 ".*"%string.

(** An all-day event on 2024-01-01 with a duration of one hour. *)
Definition short_all_day : Event :=
  mkEvent None (Some "S"%string) None None (Some (DateV jan1)) None
    (Some us_per_hour).

(** Occurrence C: 2024-01-01T12:00 to 13:00, with an explicit end. *)
Definition occ_c : Event :=
  mkEvent (Some "c"%string) (Some "C"%string) None None
    (Some (DateTimeV (jan1_at 12))) (Some (DateTimeV (jan1_at 13))) None.

(** The entity the platform sets up for [office]. *)
Definition office_device : @ICalendarCalendarEventDevice plain_host :=
  device_init (host := plain_host) "office"%string
    "https://example.org/cal.ics"%string None None "calendar.office"%string
    7 (Some ".*"%string) false.

(** A small id range for the ping counter. *)
Definition small_ids : Ping.Const :=
  {| Ping.DEFAULT_START_ID := 1; Ping.MAX_PING_ID := 3 |}.

End Sample.

(* ================================================================== *)
(** * Properties *)

(** ** The error monad *)

Lemma bind_ok {A B : Type} (m : result A) (f : A -> result B) (b : B) :
  bind m f = Ok b -> exists a, m = Ok a /\ f a = Ok b.
Proof.
  destruct m as [a|e]; simpl; intros H; [eauto | discriminate].
Qed.

Lemma bind_raise {A B : Type} (m : result A) (f : A -> result B) (e : exn) :
  bind m f = Raise e -> m = Raise e \/ exists a, m = Ok a /\ f a = Raise e.
Proof.
  destruct m as [a|e']; simpl; intros H; [right; eauto | left; congruence].
Qed.

Ltac inv_bind H :=
  let a := fresh "a" in
  let Ha := fresh "Ha" in
  apply bind_ok in H; destruct H as [a [Ha H]].

(** ** Datetimes *)

Section TimeFacts.

Context {dtu : DtUtil}.

Lemma to_datetime_aware (v : dtvalue) : exists z, tz (to_datetime v) = Some z.
Proof.
  destruct v as [d|[w [z|]]]; simpl; eauto.
Qed.

Lemma datetime_lt_aware (a b : datetime) (za zb : tzinfo) :
  tz a = Some za -> tz b = Some zb ->
  datetime_lt a b = Ok (utc_of (wall a) za <? utc_of (wall b) zb).
Proof.
  intros Ha Hb. unfold datetime_lt. rewrite Ha, Hb. reflexivity.
Qed.

Lemma dt_now_instant (utc : Z) :
  utc_of (wall (dt_now utc)) DEFAULT_TIME_ZONE = utc.
Proof.
  unfold dt_now, utc_of; simpl. lia.
Qed.

End TimeFacts.

(** ** get_end_date *)


Lemma dt_add_raise (s : dtvalue) (td : timedelta) (x : exn) :
  dt_add s td = Raise x -> x = OverflowError.
Proof.
  destruct s as [d|t]; unfold dt_add, date_add, datetime_add.
  - destruct (ordinal_ok _); simpl; congruence.
  - destruct (ordinal_ok _); simpl; congruence.
Qed.

Lemma get_end_date_raise (e : Event) (x : exn) :
  get_end_date e = Raise x ->
  (x = AttributeError /\ DTSTART e = None) \/
  (x = OverflowError /\ has_start e).
Proof.
  unfold get_end_date, get_dtstart_dt, has_start.
  destruct (DTEND e); [discriminate|].
  destruct (DTSTART e) as [s|]; destruct (DURATION e) as [d|];
    cbn [bind]; intros H;
    try (left; split; congruence);
    right; split; try discriminate; eapply dt_add_raise; eassumption.
Qed.

Lemma get_end_date_has_start (e : Event) :
  has_start e -> no_overflow e -> exists v, get_end_date e = Ok v.
Proof.
  intros Hs Hn. destruct (get_end_date e) as [v|x] eqn:H; [eauto|].
  exfalso. destruct (get_end_date_raise e x H) as [[_ Hd]|[-> _]].
  - apply Hs, Hd.
  - apply Hn, H.
Qed.

(** ** to_datetime *)

Section ToDatetime.

Context {dtu : DtUtil}.

(** C6.  [to_datetime] maps a date to midnight of that date in the
    default time zone, a naive datetime to the same wall clock time in
    the default time zone, and leaves an aware datetime as it is. *)
Theorem to_datetime_cases :
  (forall d : date,
      to_datetime (DateV d) = mkdt (d * us_per_day) (Some DEFAULT_TIME_ZONE)) /\
  (forall w : Z,
      to_datetime (DateTimeV (mkdt w None)) = mkdt w (Some DEFAULT_TIME_ZONE)) /\
  (forall (w : Z) (z : tzinfo),
      to_datetime (DateTimeV (mkdt w (Some z))) = mkdt w (Some z)).
Proof.
  repeat split.
Qed.

End ToDatetime.

(** ** The stable sort *)

Section SortFacts.

Variable A : Type.
Variable rank : A -> Z.

Lemma insert_by_perm (x : A) (run : list A) :
  Permutation (x :: run) (insert_by rank x run).
Proof.
  induction run as [|y run IH]; simpl.
  - apply Permutation_refl.
  - destruct (rank x <? rank y).
    + apply Permutation_refl.
    + eapply perm_trans; [apply perm_swap|]. apply perm_skip, IH.
Qed.

Lemma sort_by_run_perm (l run : list A) :
  Permutation (run ++ l) (sort_by_run rank run l).
Proof.
  revert run. induction l as [|x l IH]; intros run; simpl.
  - rewrite app_nil_r. apply Permutation_refl.
  - eapply perm_trans; [|apply IH].
    eapply perm_trans; [apply Permutation_sym, Permutation_middle|].
    apply (Permutation_app_tail l (insert_by_perm x run)).
Qed.

Lemma ascending_insert (x : A) (run : list A) :
  ascending rank run -> ascending rank (insert_by rank x run).
Proof.
  unfold ascending.
  induction run as [|y run IH]; simpl; intros Hs.
  - repeat constructor.
  - inversion Hs as [|y' run' Hrun Hy]; subst.
    destruct (rank x <? rank y) eqn:Hlt.
    + apply Z.ltb_lt in Hlt. constructor; [exact Hs|].
      constructor; [lia|].
      eapply Forall_impl; [|exact Hy]. simpl. intros b Hb. lia.
    + apply Z.ltb_ge in Hlt. constructor; [apply IH, Hrun|].
      eapply Permutation_Forall; [apply insert_by_perm|].
      constructor; [exact Hlt | exact Hy].
Qed.

Lemma ascending_sort_run (l run : list A) :
  ascending rank run -> ascending rank (sort_by_run rank run l).
Proof.
  revert run. induction l as [|x l IH]; intros run Hs; simpl.
  - exact Hs.
  - apply IH, ascending_insert, Hs.
Qed.

Lemma of_rank_above (k : Z) (y : A) (run : list A) :
  k < rank y -> Forall (fun b => rank y <= rank b) run ->
  of_rank rank k (y :: run) = [].
Proof.
  intros Hk Hall. unfold of_rank. simpl.
  replace (rank y =? k) with false by (symmetry; apply Z.eqb_neq; lia).
  induction Hall as [|b run Hb Hall IH]; simpl; [reflexivity|].
  replace (rank b =? k) with false by (symmetry; apply Z.eqb_neq; lia).
  exact IH.
Qed.

Lemma of_rank_cons (k : Z) (x : A) (l : list A) :
  of_rank rank k (x :: l)
  = if rank x =? k then x :: of_rank rank k l else of_rank rank k l.
Proof. reflexivity. Qed.

Lemma of_rank_insert (k : Z) (x : A) (run : list A) :
  ascending rank run ->
  of_rank rank k (insert_by rank x run)
  = of_rank rank k run ++ of_rank rank k [x].
Proof.
  unfold ascending.
  induction run as [|y run IH]; intros Hs.
  - reflexivity.
  - inversion Hs as [|y' run' Hrun Hy]; subst. cbn [insert_by].
    destruct (rank x <? rank y) eqn:Hlt.
    + apply Z.ltb_lt in Hlt.
      rewrite (of_rank_cons k x (y :: run)), (of_rank_cons k x []).
      destruct (rank x =? k) eqn:Hk.
      * apply Z.eqb_eq in Hk.
        rewrite (of_rank_above k y run) by (assumption || lia).
        reflexivity.
      * rewrite app_nil_r. reflexivity.
    + rewrite !(of_rank_cons k y).
      destruct (rank y =? k); simpl; rewrite IH by exact Hrun; reflexivity.
Qed.

Lemma of_rank_sort_run (k : Z) (l run : list A) :
  ascending rank run ->
  of_rank rank k (sort_by_run rank run l)
  = of_rank rank k run ++ of_rank rank k l.
Proof.
  revert run. induction l as [|x l IH]; intros run Hs; cbn [sort_by_run].
  - change (of_rank rank k []) with (@nil A). rewrite app_nil_r. reflexivity.
  - rewrite IH by (apply ascending_insert, Hs).
    rewrite of_rank_insert by exact Hs.
    rewrite <- app_assoc. f_equal.
    rewrite !of_rank_cons. destruct (rank x =? k); reflexivity.
Qed.

(** The sort is a permutation, ascending by rank, and stable: the
    elements of each rank keep the order they had. *)
Lemma stable_sort_spec (l : list A) :
  Permutation l (stable_sort rank l) /\
  ascending rank (stable_sort rank l) /\
  (forall k, of_rank rank k (stable_sort rank l) = of_rank rank k l).
Proof.
  unfold stable_sort. repeat split.
  - apply (sort_by_run_perm l []).
  - apply ascending_sort_run. constructor.
  - intros k. apply (of_rank_sort_run k l []). constructor.
Qed.

(** Two ascending lists that agree rank by rank are equal: the three
    properties above determine the sorted list, so every stable sort
    returns the list [stable_sort] returns. *)
Lemma stable_sort_unique (l1 l2 : list A) :
  ascending rank l1 -> ascending rank l2 ->
  (forall k, of_rank rank k l1 = of_rank rank k l2) ->
  l1 = l2.
Proof.
  unfold ascending. revert l2.
  induction l1 as [|x l1 IH]; intros l2 H1 H2 Heq.
  - destruct l2 as [|y l2]; [reflexivity|].
    specialize (Heq (rank y)). unfold of_rank in Heq. simpl in Heq.
    rewrite Z.eqb_refl in Heq. discriminate.
  - destruct l2 as [|y l2].
    + specialize (Heq (rank x)). unfold of_rank in Heq. simpl in Heq.
      rewrite Z.eqb_refl in Heq. discriminate.
    + inversion H1 as [|x' l1' Hs1 Hx]; subst.
      inversion H2 as [|y' l2' Hs2 Hy]; subst.
      assert (Hxy : rank x = rank y).
      { destruct (Z.lt_trichotomy (rank x) (rank y)) as [Hlt|[He|Hgt]];
          [|exact He|].
        - pose proof (Heq (rank x)) as E.
          rewrite (of_rank_above (rank x) y l2) in E by assumption.
          unfold of_rank in E. simpl in E. rewrite Z.eqb_refl in E.
          discriminate.
        - pose proof (Heq (rank y)) as E.
          rewrite (of_rank_above (rank y) x l1) in E by (assumption || lia).
          unfold of_rank in E. simpl in E. rewrite Z.eqb_refl in E.
          discriminate. }
      assert (Hhead : x = y).
      { pose proof (Heq (rank x)) as E. unfold of_rank in E. simpl in E.
        rewrite <- Hxy, Z.eqb_refl in E. congruence. }
      subst y. f_equal. apply IH; try assumption.
      intros k. specialize (Heq k). unfold of_rank in *. simpl in Heq.
      destruct (rank x =? k); congruence.
Qed.

End SortFacts.

(** ** Sorting the events *)

Lemma mapM_ok_inv {A B : Type} (f : A -> result B) (l : list A) (ys : list B) :
  mapM f l = Ok ys -> Forall (fun x => exists y, f x = Ok y) l.
Proof.
  revert ys. induction l as [|x l IH]; intros ys H; simpl in H.
  - constructor.
  - inv_bind H. inv_bind H. constructor; eauto.
Qed.

Lemma mapM_raise_first {A B : Type} (f : A -> result B) (l : list A) (e : exn) :
  (forall x, In x l -> (exists y, f x = Ok y) \/ f x = Raise e) ->
  (exists x, In x l /\ f x = Raise e) ->
  mapM f l = Raise e.
Proof.
  induction l as [|x l IH]; intros Hall [x0 [Hin Hx0]].
  - destruct Hin.
  - simpl. destruct (Hall x (or_introl eq_refl)) as [[y Hy]|Hy]; rewrite Hy; simpl.
    + destruct Hin as [->|Hin]; [congruence|].
      rewrite IH; [reflexivity | intros; apply Hall; right; assumption | eauto].
    + reflexivity.
Qed.

Section SortEvents.

Context {re : ReModule} {dtu : DtUtil}.

Lemma sort_key_has_start (x : Event) :
  has_start x -> sort_key x = Ok (fst (decorate x)).
Proof.
  unfold has_start, sort_key, item_dtstart_dt, decorate.
  destruct (DTSTART x); [reflexivity | congruence].
Qed.

Lemma sort_key_ok_inv (x : Event) (k : datetime) :
  sort_key x = Ok k -> has_start x.
Proof.
  unfold has_start, sort_key, item_dtstart_dt.
  destruct (DTSTART x); [congruence | discriminate].
Qed.

Lemma mapM_decorate (l : list Event) :
  Forall has_start l ->
  mapM (fun x => k <- sort_key x ;; Ok (k, x)) l = Ok (map decorate l).
Proof.
  induction 1 as [|x l Hx Hl IH]; simpl.
  - reflexivity.
  - rewrite (sort_key_has_start x Hx), IH. reflexivity.
Qed.

(** Keys made by [to_datetime] always compare, by their instants. *)
Lemma lt_decorate (x y : Event) :
  has_start x -> has_start y ->
  datetime_lt (fst (decorate x)) (fst (decorate y))
  = Ok (start_instant x <? start_instant y).
Proof.
  unfold has_start, decorate, start_instant. intros Hx Hy.
  destruct (DTSTART x) as [dx|]; [|congruence].
  destruct (DTSTART y) as [dy|]; [|congruence].
  simpl.
  destruct (to_datetime_aware dx) as [zx Hzx].
  destruct (to_datetime_aware dy) as [zy Hzy].
  rewrite (datetime_lt_aware _ _ zx zy Hzx Hzy), Hzx, Hzy. reflexivity.
Qed.

Lemma insert_run_decorate (x : Event) (run : list Event) :
  has_start x -> Forall has_start run ->
  insert_run datetime_lt (decorate x) (map decorate run)
  = Ok (map decorate (insert_by start_instant x run)).
Proof.
  intros Hx. induction 1 as [|y run Hy Hrun IH];
    cbn [map insert_run insert_by].
  - reflexivity.
  - rewrite (lt_decorate x y Hx Hy). cbn [bind].
    destruct (start_instant x <? start_instant y).
    + reflexivity.
    + rewrite IH. reflexivity.
Qed.

Lemma sort_run_decorate (l run : list Event) :
  Forall has_start l -> Forall has_start run ->
  sort_run datetime_lt (map decorate run) (map decorate l)
  = Ok (map decorate (sort_by_run start_instant run l)).
Proof.
  intros Hl. revert run.
  induction Hl as [|x l Hx Hl IH]; intros run Hrun;
    cbn [map sort_run sort_by_run].
  - reflexivity.
  - rewrite (insert_run_decorate x run Hx Hrun). cbn [bind].
    apply IH.
    eapply Permutation_Forall; [apply insert_by_perm|].
    constructor; assumption.
Qed.

Lemma map_snd_decorate (l : list Event) : map snd (map decorate l) = l.
Proof.
  induction l as [|x l IH]; simpl; [reflexivity | rewrite IH; reflexivity].
Qed.

(** On events that all have a start the sort of [update] raises nothing
    and is the stable sort by starting instant. *)
Lemma sort_events_has_start (l : list Event) :
  Forall has_start l ->
  sort_events l = Ok (stable_sort start_instant l).
Proof.
  intros Hl. unfold sort_events, list_sort.
  rewrite (mapM_decorate l Hl). cbn [bind].
  change (@nil (datetime * Event)) with (map decorate []).
  rewrite (sort_run_decorate l [] Hl (Forall_nil _)). cbn [bind].
  rewrite map_snd_decorate. reflexivity.
Qed.

(** The sort only returns when every event has a start. *)
Lemma sort_events_ok_inv (l sorted : list Event) :
  sort_events l = Ok sorted ->
  Forall has_start l /\ sorted = stable_sort start_instant l.
Proof.
  intros H.
  assert (Hl : Forall has_start l).
  { unfold sort_events, list_sort in H. inv_bind H.
    apply mapM_ok_inv in Ha. eapply Forall_impl; [|exact Ha].
    simpl. intros x [y Hy]. inv_bind Hy. eapply sort_key_ok_inv; eauto. }
  split; [exact Hl|].
  rewrite (sort_events_has_start l Hl) in H. congruence.
Qed.

(** One event without a start makes the sort raise [KeyError]. *)
Lemma sort_events_missing_start (l : list Event) :
  (exists e, In e l /\ DTSTART e = None) ->
  sort_events l = Raise KeyError.
Proof.
  intros [e [Hin He]]. unfold sort_events, list_sort.
  assert (Hm : mapM (fun x => k <- sort_key x ;; Ok (k, x)) l = Raise KeyError).
  { apply mapM_raise_first.
    - intros x _. unfold sort_key, item_dtstart_dt.
      destruct (DTSTART x); simpl; eauto.
    - exists e. split; [exact Hin|].
      unfold sort_key, item_dtstart_dt. rewrite He. reflexivity. }
  rewrite Hm. reflexivity.
Qed.

End SortEvents.

(** ** The three tests *)

Section Tests.

Context {re : ReModule} {dtu : DtUtil}.

Lemma truthy_py_or (a b : pyval Match) :
  truthy (py_or a b) = truthy a || truthy b.
Proof.
  unfold py_or. destruct (truthy a) eqn:Ha; simpl; [exact Ha | reflexivity].
Qed.

Lemma truthy_match_clause (p : Pattern) (field : option string) :
  truthy (match_clause p field) = true <->
  exists text, field = Some text /\ pattern_match p text <> None.
Proof.
  unfold match_clause. destruct field as [text|].
  - destruct (pattern_match p text) as [m|] eqn:Hm; simpl; split.
    + intros _. exists text. split; [reflexivity | congruence].
    + reflexivity.
    + discriminate.
    + intros [t [Ht Hn]]. inversion Ht; subst. congruence.
  - simpl. split; [discriminate|]. intros [t [Ht _]]. discriminate.
Qed.

(** The value of [is_matching] for a pattern that compiles is truthy
    exactly when the pattern matches one of the fields present. *)
Lemma is_matching_compiled (ev : Event) (s : string) (p : Pattern) :
  re_compile s = Some p ->
  exists v,
    is_matching ev (Some s) = Ok v /\
    (truthy v = true <->
     exists text,
       (SUMMARY ev = Some text \/ LOCATION ev = Some text \/
        DESCRIPTION ev = Some text) /\
       pattern_match p text <> None).
Proof.
  intros Hc. unfold is_matching. rewrite Hc. eexists. split; [reflexivity|].
  rewrite !truthy_py_or, !orb_true_iff, !truthy_match_clause. split.
  - intros [[[t [Hf Hm]]|[t [Hf Hm]]]|[t [Hf Hm]]]; exists t; auto.
  - intros [t [[Hf|[Hf|Hf]] Hm]]; eauto.
Qed.

Lemma is_matching_no_text (ev : Event) (s : string) (p : Pattern) :
  no_text ev -> re_compile s = Some p ->
  is_matching ev (Some s) = Ok PyFalse.
Proof.
  intros (Hs & Hl & Hd) Hc. unfold is_matching.
  rewrite Hc, Hs, Hl, Hd. reflexivity.
Qed.

Lemma is_matching_not_compiled (ev : Event) (s : string) :
  re_compile s = None -> is_matching ev (Some s) = Raise re_error.
Proof.
  intros Hc. unfold is_matching. rewrite Hc. reflexivity.
Qed.

Lemma is_matching_search_ok (ev : Event) (search_ : option string) :
  search_ok search_ -> exists m, is_matching ev search_ = Ok m.
Proof.
  destruct search_ as [s|]; simpl; intros H; [|eauto].
  destruct (re_compile s); [eauto | congruence].
Qed.

Lemma is_all_day_has_start (ev : Event) :
  has_start ev -> exists a, is_all_day ev = Ok a.
Proof.
  unfold has_start, is_all_day, get_dtstart_dt.
  destruct (DTSTART ev); [simpl; eauto | congruence].
Qed.

(** [is_over] never fails to compare: it tells whether the clock has
    reached the instant of the end. *)
Lemma is_over_instant (now_utc : Z) (ev : Event) (en : dtvalue) :
  get_end_date ev = Ok en ->
  exists z,
    tz (to_datetime en) = Some z /\
    is_over now_utc ev = Ok (utc_of (wall (to_datetime en)) z <=? now_utc).
Proof.
  intros He. destruct (to_datetime_aware en) as [z Hz].
  exists z. split; [exact Hz|].
  unfold is_over. rewrite He. cbn [bind].
  unfold datetime_ge. rewrite Hz.
  change (tz (dt_now now_utc)) with (Some DEFAULT_TIME_ZONE). cbv iota beta.
  rewrite dt_now_instant. reflexivity.
Qed.

Lemma tests_return_has_start (search_ : option string) (now_utc : Z)
  (ev : Event) :
  search_ok search_ -> has_start ev -> no_overflow ev ->
  tests_return search_ now_utc ev.
Proof.
  intros Hs He Hn.
  destruct (is_matching_search_ok ev search_ Hs) as [m Hm].
  destruct (is_all_day_has_start ev He) as [a Ha].
  destruct (get_end_date_has_start ev He Hn) as [en Hen].
  destruct (is_over_instant now_utc ev en Hen) as [z [_ Ho]].
  exists m, a, (utc_of (wall (to_datetime en)) z <=? now_utc). auto.
Qed.

(** What the generator guarantees of the event it yields. *)
Lemma next_event_some (search_ : option string) (inc : bool)
  (clock : nat -> Z) (events : list Event) :
  forall (n : nat) (e : Event),
    next_event search_ inc clock n events = Ok (Some e) ->
    In e events /\
    exists m a k,
      is_matching e search_ = Ok m /\ truthy m = true /\
      is_all_day e = Ok a /\ negb a || inc = true /\
      is_over (clock k) e = Ok false.
Proof.
  induction events as [|x rest IH]; intros n e H; simpl in H.
  - discriminate.
  - apply bind_ok in H. destruct H as [m [Hm H]].
    destruct (truthy m) eqn:Htm.
    + apply bind_ok in H. destruct H as [a [Ha H]].
      destruct (negb a || inc) eqn:Hai.
      * apply bind_ok in H. destruct H as [o [Ho H]].
        destruct o; simpl in H.
        -- destruct (IH _ _ H) as [Hin Hrest]. split; [right; exact Hin | exact Hrest].
        -- inversion H; subst. split; [left; reflexivity|].
           exists m, a, n. auto.
      * destruct (IH _ _ H) as [Hin Hrest]. split; [right; exact Hin | exact Hrest].
    + destruct (IH _ _ H) as [Hin Hrest]. split; [right; exact Hin | exact Hrest].
Qed.

(** With a clock that stands still the generator is [find]. *)
Lemma next_event_find (search_ : option string) (inc : bool) (now_utc : Z)
  (events : list Event) :
  Forall (tests_return search_ now_utc) events ->
  forall n,
    next_event search_ inc (fun _ => now_utc) n events
    = Ok (find (qualifies search_ inc now_utc) events).
Proof.
  induction 1 as [|x rest Hx Hrest IH]; intros n; simpl.
  - reflexivity.
  - destruct Hx as (m & a & o & Hm & Ha & Ho).
    unfold qualifies. rewrite Hm, Ha, Ho. simpl.
    destruct (truthy m); simpl; [|apply IH].
    destruct (negb a || inc); simpl; [|apply IH].
    destruct o; simpl; [apply IH | reflexivity].
Qed.

Lemma select_current_some (search_ : option string) (inc : bool)
  (clock : nat -> Z) (events : list Event) (e : Event) :
  select_current search_ inc clock events = Ok (Some e) ->
  In e events /\
  exists m a k,
    is_matching e search_ = Ok m /\ truthy m = true /\
    is_all_day e = Ok a /\ negb a || inc = true /\
    is_over (clock k) e = Ok false.
Proof.
  unfold select_current. intros H.
  apply bind_ok in H. destruct H as [sorted [Hs H]].
  apply sort_events_ok_inv in Hs. destruct Hs as [_ ->].
  apply next_event_some in H. destruct H as [Hin Hrest].
  split; [|exact Hrest].
  eapply Permutation_in; [|exact Hin].
  apply Permutation_sym. apply stable_sort_spec.
Qed.

End Tests.

(** ** Selecting the current event *)

Section Selection.

Context {re : ReModule} {dtu : DtUtil}.


(** Whatever the clock does during the search, the event returned was
    not over at one of its readings. *)
Lemma not_over_at_some_reading
  (search_ : option string) (inc : bool) (clock : nat -> Z)
  (events : list Event) (e : Event) :
  select_current search_ inc clock events = Ok (Some e) ->
  exists k, is_over (clock k) e = Ok false.
Proof.
  intros H. apply select_current_some in H.
  destruct H as (_ & m & a & k & _ & _ & _ & _ & Ho). eauto.
Qed.

(** C3.  An occurrence [select_current] returns for the reference
    instant [now_utc] is not over: [is_over] is false on it, that is,
    its end date is derived and [now_utc] lies before the instant
    [to_datetime] gives for that end. *)
Theorem select_current_not_over
  (search_ : option string) (inc : bool) (now_utc : Z)
  (events : list Event) (e : Event) :
  select_current search_ inc (fun _ => now_utc) events = Ok (Some e) ->
  is_over now_utc e = Ok false /\
  exists en z,
    get_end_date e = Ok en /\
    tz (to_datetime en) = Some z /\
    now_utc < utc_of (wall (to_datetime en)) z.
Proof.
  intros H. apply not_over_at_some_reading in H.
  destruct H as [k Ho]. split; [exact Ho|].
  pose proof Ho as Ho'. unfold is_over in Ho'.
  apply bind_ok in Ho'. destruct Ho' as [en [Hen _]].
  destruct (is_over_instant now_utc e en Hen) as [z [Hz Hi]].
  exists en, z. repeat split; try assumption.
  rewrite Hi in Ho. apply Z.leb_gt. congruence.
Qed.

Lemma is_all_day_date_only (ev : Event) :
  is_all_day ev = Ok true <-> exists d, DTSTART ev = Some (DateV d).
Proof.
  unfold is_all_day, get_dtstart_dt.
  destruct (DTSTART ev) as [[d|t]|]; simpl; split;
    try discriminate; try (intros [d' Hd]; discriminate); eauto.
Qed.

(** C4.  With [include_all_day] false the occurrence returned is not
    an all-day one: its start is a datetime; and [is_all_day] holds
    exactly of the events whose start is a date. *)
Theorem select_current_skips_all_day
  (search_ : option string) (clock : nat -> Z)
  (events : list Event) (e : Event) :
  select_current search_ false clock events = Ok (Some e) ->
  is_all_day e = Ok false /\
  (exists t, DTSTART e = Some (DateTimeV t)) /\
  (forall ev, is_all_day ev = Ok true <-> exists d, DTSTART ev = Some (DateV d)).
Proof.
  intros H. apply select_current_some in H.
  destruct H as (_ & m & a & k & _ & _ & Ha & Hinc & _).
  rewrite orb_false_r in Hinc. apply negb_true_iff in Hinc. subst a.
  split; [exact Ha|]. split.
  - unfold is_all_day, get_dtstart_dt in Ha.
    destruct (DTSTART e) as [[d|t]|]; simpl in Ha; try discriminate. eauto.
  - intros ev. apply is_all_day_date_only.
Qed.

(** C10.  An event without summary, location and description yields
    [False] from [is_matching] for every search that compiles, never a
    truthy value for any search that is set, and is therefore never the
    event [select_current] returns under such a search. *)
Theorem no_text_never_selected (ev : Event) :
  no_text ev ->
  (forall s p, re_compile s = Some p -> is_matching ev (Some s) = Ok PyFalse) /\
  (forall s, is_matching ev (Some s) = Ok PyFalse \/
             is_matching ev (Some s) = Raise re_error) /\
  (forall s inc clock events,
      select_current (Some s) inc clock events <> Ok (Some ev)).
Proof.
  intros Hn.
  assert (H2 : forall s, is_matching ev (Some s) = Ok PyFalse \/
                         is_matching ev (Some s) = Raise re_error).
  { intros s. destruct (re_compile s) as [p|] eqn:Hc.
    - left. eapply is_matching_no_text; eassumption.
    - right. apply is_matching_not_compiled, Hc. }
  repeat split.
  - intros s p Hc. eapply is_matching_no_text; eassumption.
  - exact H2.
  - intros s inc clock events H. apply select_current_some in H.
    destruct H as (_ & m & a & k & Hm & Htm & _).
    destruct (H2 s) as [E|E]; rewrite E in Hm; [|discriminate].
    inversion Hm; subst. discriminate.
Qed.

End Selection.

(** ** update and async_get_events *)

Section Resolution.

Context {re : ReModule} {dtu : DtUtil} {ical : ICalLib}.

Variable get_date_isoformat : hass_date -> string.

(** [update] reads [self] only through its configuration. *)
Lemma resolve_same_config (a b : ICalendarCalendarData) (w : World) :
  same_config a b -> resolve a w = resolve b w.
Proof.
  destruct a, b. unfold same_config. simpl.
  intros (-> & -> & -> & -> & ->). reflexivity.
Qed.

Lemma update_resolve (a : ICalendarCalendarData) (w : World) :
  update a w = (v <- resolve a w ;; Ok (set_event a v)).
Proof.
  unfold resolve, update.
  destruct (window_end a w) as [end_date|e]; [|reflexivity]. cbn [bind].
  destruct (icalendar_get_events a w (start_of_today w) end_date)
    as [events|e]; [|reflexivity]. cbn [bind].
  destruct (select_current (search a) (include_all_day a) (dt_now_utc w) events)
    as [[ev|]|e]; try reflexivity. cbn [bind].
  destruct (populate ev); reflexivity.
Qed.

Lemma same_config_set_event (a : ICalendarCalendarData) (v : option hass_event) :
  same_config a (set_event a v).
Proof.
  unfold same_config, set_event. simpl. auto.
Qed.

(** C7.  Resolution is a function of the configuration, the fetched
    document and the clock readings alone: two objects configured alike
    give the same outcome in the same world, whatever [self.event] held
    before, for [update] and for [async_get_events]; and running
    [update] again on the object it left behind, in the same world,
    gives the same outcome and leaves the object as it is. *)
Theorem resolve_two_runs (a b : ICalendarCalendarData) (w : World)
  (start_date end_date : datetime) :
  same_config a b ->
  resolve a w = resolve b w /\
  async_get_events get_date_isoformat a w start_date end_date
  = async_get_events get_date_isoformat b w start_date end_date /\
  (forall a', update a w = Ok a' ->
              resolve a' w = resolve a w /\ update a' w = Ok a').
Proof.
  intros Hc. split; [apply resolve_same_config, Hc|]. split.
  - destruct a, b. unfold same_config in Hc. simpl in Hc.
    destruct Hc as (-> & -> & -> & -> & ->). reflexivity.
  - intros a' Hu. rewrite update_resolve in Hu.
    apply bind_ok in Hu. destruct Hu as [v [Hv Hu]].
    inversion Hu; subst a'.
    assert (Hr : resolve (set_event a v) w = resolve a w)
      by (symmetry; apply resolve_same_config, same_config_set_event).
    split; [exact Hr|].
    rewrite update_resolve, Hr, Hv. reflexivity.
Qed.

Lemma resolve_fetched (self : ICalendarCalendarData) (w : World) :
  resolve self w
  = (events <- fetched self w ;;
     found <- select_current (search self) (include_all_day self)
                (dt_now_utc w) events ;;
     match found with
     | None => Ok None
     | Some e => ev <- populate e ;; Ok (Some ev)
     end).
Proof.
  unfold resolve, update, fetched.
  destruct (window_end self w) as [end_date|e]; [|reflexivity]. cbn [bind].
  destruct (icalendar_get_events self w (start_of_today w) end_date)
    as [events|e]; [|reflexivity]. cbn [bind].
  destruct (select_current (search self) (include_all_day self)
              (dt_now_utc w) events) as [[ev|]|e]; try reflexivity.
  cbn [bind]. destruct (populate ev); reflexivity.
Qed.


Lemma event_to_data_start (e : Event) :
  (has_start e /\ no_overflow e /\
   exists d, event_to_data get_date_isoformat e = Ok d) \/
  (DTSTART e = None /\
   event_to_data get_date_isoformat e = Raise AttributeError) \/
  (has_start e /\ get_end_date e = Raise OverflowError /\
   event_to_data get_date_isoformat e = Raise OverflowError).
Proof.
  unfold event_to_data. destruct (DTSTART e) as [v|] eqn:Hv.
  - assert (Hs : has_start e) by (unfold has_start; congruence).
    unfold get_dtstart_dt. rewrite Hv. cbn [bind].
    destruct (get_end_date e) as [en|x] eqn:Hen.
    + left. split; [exact Hs|]. split; [|simpl; eauto].
      unfold no_overflow. congruence.
    + right. right.
      destruct (get_end_date_raise e x Hen) as [[_ Hd]|[-> _]];
        [congruence|]. auto.
  - right. left. split; [reflexivity|].
    unfold get_dtstart_dt. rewrite Hv. reflexivity.
Qed.



End Resolution.

(** ** The ping id *)

Module PingFacts.

Import Ping.

Section WithConst.

Context {c : Const}.

Lemma next_ping_id_step (d : ping_data) :
  async_get_next_ping_id (Some d)
  = Ok (if PING_ID d =? MAX_PING_ID then DEFAULT_START_ID else PING_ID d + 1,
        Some (mkPing (PING_PRIVS d)
                (if PING_ID d =? MAX_PING_ID then DEFAULT_START_ID
                 else PING_ID d + 1))).
Proof. reflexivity. Qed.

(** One call keeps the stored id in range and returns an id in range. *)
Lemma next_ping_id_in_range (data : hass_data) :
  DEFAULT_START_ID <= MAX_PING_ID ->
  in_range data ->
  exists id data',
    async_get_next_ping_id data = Ok (id, data') /\
    in_range data' /\ DEFAULT_START_ID <= id <= MAX_PING_ID.
Proof.
  intros Hc Hr. destruct data as [d|]; [|contradiction]. simpl in Hr.
  rewrite next_ping_id_step. do 2 eexists. split; [reflexivity|].
  simpl. destruct (PING_ID d =? MAX_PING_ID) eqn:E.
  - lia.
  - apply Z.eqb_neq in E. lia.
Qed.

Lemma calls_in_range (n : nat) :
  DEFAULT_START_ID <= MAX_PING_ID ->
  forall data,
    in_range data ->
    exists ids data',
      calls n data = Ok (ids, data') /\
      in_range data' /\
      Forall (fun id => DEFAULT_START_ID <= id <= MAX_PING_ID) ids.
Proof.
  intros Hc. induction n as [|n IH]; intros data Hr.
  - exists [], data. simpl. auto.
  - destruct (next_ping_id_in_range data Hc Hr) as (id & d1 & H1 & Hr1 & Hid).
    destruct (IH d1 Hr1) as (ids & d2 & H2 & Hr2 & Hids).
    exists (id :: ids), d2. cbn [calls]. rewrite H1. cbn [bind snd fst].
    rewrite H2. cbn [bind snd fst]. auto.
Qed.

(** C9.  A call returns and stores [DEFAULT_START_ID] when the stored
    id is [MAX_PING_ID] and the stored id plus one otherwise; and when
    the two constants delimit a range, after [async_setup] every
    sequence of calls returns ids of the range
    [DEFAULT_START_ID .. MAX_PING_ID] and leaves the stored id in it. *)
Theorem ping_id_wraps :
  DEFAULT_START_ID <= MAX_PING_ID ->
  (forall d,
      async_get_next_ping_id (Some d)
      = Ok (if PING_ID d =? MAX_PING_ID then DEFAULT_START_ID
            else PING_ID d + 1,
            Some (mkPing (PING_PRIVS d)
                    (if PING_ID d =? MAX_PING_ID then DEFAULT_START_ID
                     else PING_ID d + 1)))) /\
  (forall denied data0 n,
      exists ids data,
        calls n (async_setup denied data0) = Ok (ids, data) /\
        in_range data /\
        Forall (fun id => DEFAULT_START_ID <= id <= MAX_PING_ID) ids).
Proof.
  intros Hc. split; [exact next_ping_id_step|].
  intros denied data0 n. apply calls_in_range; [exact Hc|].
  simpl. lia.
Qed.

End WithConst.

End PingFacts.

(** ** The matcher of the fragment *)

Module PyReFacts.

Import PyRe PyReSem.

Lemma run_star (r1 : regex) (pos : nat) (s : list ascii)
  (k : nat -> list ascii -> option nat) :
  run (Star r1) pos s k = star_loop r1 k (List.length s) pos s.
Proof. reflexivity. Qed.

(** A match reads a prefix of what is left and counts it. *)
Lemma matches_suffix (r : regex) (pos : nat) (s : list ascii)
  (pos' : nat) (s' : list ascii) :
  Matches r pos s pos' s' ->
  exists u, s = u ++ s' /\ pos' = (pos + List.length u)%nat.
Proof.
  induction 1 as
    [pos s|c pos s|a pos s Ha|s|pos|pos
    |r1 r2 pos s p1 s1 p2 s2 H1 IH1 H2 IH2
    |r1 r2 pos s p1 s1 H1 IH1|r1 r2 pos s p2 s2 H2 IH2
    |r pos s|r pos s p1 s1 p2 s2 H1 IH1 H2 IH2];
    try (exists []; split; [reflexivity | simpl; lia]);
    try assumption.
  - exists [c]. split; [reflexivity | simpl; lia].
  - exists [a]. split; [reflexivity | simpl; lia].
  - destruct IH1 as [u1 [E1 P1]]. destruct IH2 as [u2 [E2 P2]].
    exists (u1 ++ u2). subst. rewrite <- app_assoc, length_app.
    split; [reflexivity | lia].
  - destruct IH1 as [u1 [E1 P1]]. destruct IH2 as [u2 [E2 P2]].
    exists (u1 ++ u2). subst. rewrite <- app_assoc, length_app.
    split; [reflexivity | lia].
Qed.

Lemma matches_same_length (r : regex) (pos : nat) (s : list ascii)
  (pos' : nat) (s' : list ascii) :
  Matches r pos s pos' s' -> (List.length s <= List.length s')%nat ->
  pos' = pos /\ s' = s.
Proof.
  intros H Hl. destruct (matches_suffix _ _ _ _ _ H) as [u [E P]].
  subst s. rewrite length_app in Hl.
  destruct u as [|a u]; [|simpl in Hl; lia].
  split; [simpl in P; lia | reflexivity].
Qed.

(** Iterations of a star that read nothing can be left out. *)
Lemma star_productive (r : regex) (pos : nat) (s : list ascii)
  (pos' : nat) (s' : list ascii) :
  Matches (Star r) pos s pos' s' -> Repeats r pos s pos' s'.
Proof.
  intros H. remember (Star r) as q eqn:Hq.
  induction H as
    [pos s|c pos s|a pos s Ha|s|pos|pos
    |r1 r2 pos s p1 s1 p2 s2 H1 IH1 H2 IH2
    |r1 r2 pos s p1 s1 H1 IH1|r1 r2 pos s p2 s2 H2 IH2
    |r0 pos s|r0 pos s p1 s1 p2 s2 H1 IH1 H2 IH2];
    try discriminate.
  - constructor.
  - inversion Hq; subst r0. specialize (IH2 eq_refl).
    destruct (Nat.lt_ge_cases (List.length s1) (List.length s)) as [Hlt|Hge].
    + eapply Repeats_more; eassumption.
    + destruct (matches_same_length _ _ _ _ _ H1 Hge) as [-> ->]. exact IH2.
Qed.

Lemma repeats_star (r : regex) (pos : nat) (s : list ascii)
  (pos' : nat) (s' : list ascii) :
  Repeats r pos s pos' s' -> Matches (Star r) pos s pos' s'.
Proof.
  induction 1 as [pos s|pos s p1 s1 p2 s2 H1 Hlt H2 IH].
  - constructor.
  - eapply MStar_more; eassumption.
Qed.

Section Star.

Variable r1 : regex.

Hypothesis sound_r1 :
  forall pos s k,
    run r1 pos s k <> None ->
    exists pos' s', Matches r1 pos s pos' s' /\ k pos' s' <> None.

Hypothesis complete_r1 :
  forall pos s pos' s',
    Matches r1 pos s pos' s' ->
    forall k, k pos' s' <> None -> run r1 pos s k <> None.

Lemma star_loop_sound (k : nat -> list ascii -> option nat) (fuel : nat) :
  forall pos s,
    star_loop r1 k fuel pos s <> None ->
    exists pos' s', Matches (Star r1) pos s pos' s' /\ k pos' s' <> None.
Proof.
  induction fuel as [|fuel IH]; intros pos s H; cbn [star_loop] in H.
  - exists pos, s. split; [constructor | exact H].
  - destruct (run r1 pos s
                (fun p t =>
                   if Nat.ltb (List.length t) (List.length s)
                   then star_loop r1 k fuel p t else None)) as [e|] eqn:E.
    + assert (Hrun : run r1 pos s
                (fun p t =>
                   if Nat.ltb (List.length t) (List.length s)
                   then star_loop r1 k fuel p t else None) <> None)
        by (rewrite E; discriminate).
      apply sound_r1 in Hrun. destruct Hrun as (p1 & s1 & H1 & Hk).
      destruct (Nat.ltb (List.length s1) (List.length s)); [|congruence].
      apply IH in Hk. destruct Hk as (p2 & s2 & H2 & Hk2).
      exists p2, s2. split; [eapply MStar_more; eassumption | exact Hk2].
    + exists pos, s. split; [constructor | exact H].
Qed.

Lemma star_loop_complete (k : nat -> list ascii -> option nat)
  (pos : nat) (s : list ascii) (pos' : nat) (s' : list ascii) :
  Repeats r1 pos s pos' s' ->
  k pos' s' <> None ->
  forall fuel, (List.length s <= fuel)%nat ->
               star_loop r1 k fuel pos s <> None.
Proof.
  intros H Hk.
  induction H as [pos s|pos s p1 s1 p2 s2 H1 Hlt H2 IH]; intros fuel Hf.
  - destruct fuel as [|fuel]; cbn [star_loop]; [exact Hk|].
    destruct (run r1 pos s _); [discriminate | exact Hk].
  - destruct fuel as [|fuel]; [lia|]. cbn [star_loop].
    assert (Hrun : run r1 pos s
                (fun p t =>
                   if Nat.ltb (List.length t) (List.length s)
                   then star_loop r1 k fuel p t else None) <> None).
    { apply (complete_r1 _ _ _ _ H1).
      replace (Nat.ltb (List.length s1) (List.length s)) with true
        by (symmetry; apply Nat.ltb_lt; exact Hlt).
      apply IH; [exact Hk | lia]. }
    destruct (run r1 pos s _); [discriminate | congruence].
Qed.

End Star.

(** The matcher succeeds only along a match of the pattern. *)
Lemma run_sound (r : regex) :
  forall pos s k,
    run r pos s k <> None ->
    exists pos' s', Matches r pos s pos' s' /\ k pos' s' <> None.
Proof.
  induction r as [|c| | | |r1 IH1 r2 IH2|r1 IH1 r2 IH2|r1 IH1];
    intros pos s k H.
  - exists pos, s. split; [constructor | exact H].
  - cbn [run] in H. destruct s as [|a s]; [congruence|].
    destruct (Ascii.eqb a c) eqn:E; [|congruence].
    apply Ascii.eqb_eq in E. subst a.
    exists (S pos), s. split; [constructor | exact H].
  - cbn [run] in H. destruct s as [|a s]; [congruence|].
    destruct (Ascii.eqb a newline) eqn:E; [congruence|].
    apply Ascii.eqb_neq in E.
    exists (S pos), s. split; [constructor; exact E | exact H].
  - cbn [run] in H. destruct (Nat.eqb pos 0) eqn:E; [|congruence].
    apply Nat.eqb_eq in E. subst pos.
    exists 0%nat, s. split; [constructor | exact H].
  - cbn [run] in H. destruct s as [|a [|b s]]; try congruence.
    + exists pos, []. split; [constructor | exact H].
    + destruct (Ascii.eqb a newline) eqn:E; [|congruence].
      apply Ascii.eqb_eq in E. subst a.
      exists pos, [newline]. split; [constructor | exact H].
  - cbn [run] in H. apply IH1 in H. destruct H as (p1 & s1 & H1 & H).
    apply IH2 in H. destruct H as (p2 & s2 & H2 & H).
    exists p2, s2. split; [econstructor; eassumption | exact H].
  - cbn [run] in H. destruct (run r1 pos s k) as [e|] eqn:E.
    + assert (Hr : run r1 pos s k <> None) by (rewrite E; discriminate).
      apply IH1 in Hr. destruct Hr as (p1 & s1 & H1 & Hk).
      exists p1, s1. split; [apply MAlt_left; exact H1 | exact Hk].
    + apply IH2 in H. destruct H as (p2 & s2 & H2 & Hk).
      exists p2, s2. split; [apply MAlt_right; exact H2 | exact Hk].
  - rewrite run_star in H. eapply star_loop_sound; eassumption.
Qed.

(** Every match of the pattern makes the matcher succeed. *)
Lemma run_complete (r : regex) :
  forall pos s pos' s',
    Matches r pos s pos' s' ->
    forall k, k pos' s' <> None -> run r pos s k <> None.
Proof.
  induction r as [|c| | | |r1 IH1 r2 IH2|r1 IH1 r2 IH2|r1 IH1];
    intros pos s pos' s' H k Hk.
  - inversion H; subst. exact Hk.
  - inversion H; subst. cbn [run]. rewrite Ascii.eqb_refl. exact Hk.
  - inversion H; subst. cbn [run].
    replace (Ascii.eqb a newline) with false
      by (symmetry; apply Ascii.eqb_neq; assumption).
    exact Hk.
  - inversion H; subst. exact Hk.
  - inversion H; subst; cbn [run]; [exact Hk|].
    rewrite Ascii.eqb_refl. exact Hk.
  - inversion H; subst. cbn [run].
    eapply IH1; [eassumption|]. eapply IH2; eassumption.
  - cbn [run]. destruct (run r1 pos s k) as [e|] eqn:E; [discriminate|].
    inversion H; subst.
    + exfalso.
      match goal with
      | Hm : Matches r1 _ _ _ _ |- _ => apply (IH1 _ _ _ _ Hm k Hk)
      end.
      exact E.
    + eapply IH2; eassumption.
  - rewrite run_star. apply star_productive in H.
    eapply star_loop_complete; [exact IH1 | exact H | exact Hk | lia].
Qed.

(** [match] succeeds exactly when the pattern matches a prefix of the
    text, [fullmatch] exactly when it matches the whole of it. *)
Lemma match_is_prefix_match (r : regex) (text : string) :
  match_ r text <> None <-> matches_prefix r text.
Proof.
  unfold match_, matches_prefix. split.
  - intros H. apply run_sound in H. destruct H as (pos' & s' & H & _).
    destruct (matches_suffix _ _ _ _ _ H) as [u [E P]].
    exists u, s'. split; [exact E|]. rewrite <- E.
    simpl in P. subst pos'. exact H.
  - intros (u & rest & E & H). rewrite E.
    eapply run_complete; [exact H | discriminate].
Qed.

Lemma fullmatch_is_whole_match (r : regex) (text : string) :
  fullmatch r text <> None <-> matches_whole r text.
Proof.
  unfold fullmatch, matches_whole. split.
  - intros H. apply run_sound in H. destruct H as (pos' & s' & H & Hk).
    destruct s'; [|congruence]. eauto.
  - intros [pos' H]. eapply run_complete; [exact H | discriminate].
Qed.

(** The engine of the fragment has the prefix semantics. *)
Lemma engine_prefix_semantics : prefix_semantics engine.
Proof.
  intros s r Hc. exists r. split.
  - simpl. rewrite Hc. reflexivity.
  - intros text. apply match_is_prefix_match.
Qed.

(** A match of the whole text is a match of a prefix, and not the other
    way round. *)
Lemma whole_match_is_prefix_match (r : regex) (text : string) :
  matches_whole r text -> matches_prefix r text.
Proof.
  intros [pos' H]. destruct (matches_suffix _ _ _ _ _ H) as [u [E P]].
  exists u, []. split; [exact E|]. rewrite <- E.
  simpl in P. subst pos'. exact H.
Qed.

Lemma prefix_match_need_not_be_whole :
  matches_prefix (Chr "a") "ab" /\ ~ matches_whole (Chr "a") "ab".
Proof.
  split.
  - exists ["a"%char], ["b"%char]. split; [reflexivity | constructor].
  - intros [pos' H]. inversion H.
Qed.

End PyReFacts.

Section Matching.

Context {re : ReModule}.

(** C5, as the code has it.  With the search unset [is_matching] is
    true of every event.  With a search that compiles, its value is
    truthy exactly when [pattern.match] succeeds on the summary, the
    location or the description, each clause on its own and a missing
    field never matching.  [pattern.match] being the match at the
    beginning of the text, for a pattern of the fragment this is the
    case exactly when the pattern matches a prefix of one of the
    fields present, whatever follows the prefix.  The empty pattern
    matches the empty prefix of every text, and is therefore truthy
    exactly of the events that have one of the three fields. *)
Theorem is_matching_clauses (ev : Event) :
  PyReSem.prefix_semantics re ->
  is_matching ev None = Ok PyTrue /\
  (forall s p,
      re_compile s = Some p ->
      exists v,
        is_matching ev (Some s) = Ok v /\
        (truthy v = true <->
         exists text,
           (SUMMARY ev = Some text \/ LOCATION ev = Some text \/
            DESCRIPTION ev = Some text) /\
           pattern_match p text <> None)) /\
  (forall s r,
      PyRe.compile s = inl r ->
      exists v,
        is_matching ev (Some s) = Ok v /\
        (truthy v = true <->
         exists text,
           (SUMMARY ev = Some text \/ LOCATION ev = Some text \/
            DESCRIPTION ev = Some text) /\
           PyReSem.matches_prefix r text)) /\
  (exists v,
      is_matching ev (Some EmptyString) = Ok v /\
      (truthy v = true <-> ~ no_text ev)).
Proof.
  intros Hre.
  assert (Hfrag : forall s r,
             PyRe.compile s = inl r ->
             exists v,
               is_matching ev (Some s) = Ok v /\
               (truthy v = true <->
                exists text,
                  (SUMMARY ev = Some text \/ LOCATION ev = Some text \/
                   DESCRIPTION ev = Some text) /\
                  PyReSem.matches_prefix r text)).
  { intros s r Hc. destruct (Hre s r Hc) as (p & Hp & Hm).
    destruct (is_matching_compiled ev s p Hp) as (v & Hv & Hiff).
    exists v. split; [exact Hv|]. rewrite Hiff.
    split; intros (text & Hf & Ht); exists text; (split; [exact Hf|]);
      apply Hm; exact Ht. }
  split; [reflexivity|]. split; [|split; [exact Hfrag|]].
  - intros s p Hc. apply is_matching_compiled, Hc.
  - destruct (Hfrag EmptyString PyRe.Eps eq_refl) as (v & Hv & Hiff).
    exists v. split; [exact Hv|]. rewrite Hiff. unfold no_text.
    assert (Hany : forall text, PyReSem.matches_prefix PyRe.Eps text).
    { intros text. exists [], (list_ascii_of_string text).
      split; [reflexivity | constructor]. }
    split.
    + intros (t & [Hf|[Hf|Hf]] & _) (Hs & Hl & Hd); congruence.
    + intros Hn.
      destruct (SUMMARY ev) as [t|] eqn:Hs; [exists t; auto|].
      destruct (LOCATION ev) as [t|] eqn:Hl; [exists t; auto|].
      destruct (DESCRIPTION ev) as [t|] eqn:Hd; [exists t; auto|].
      exfalso. apply Hn. auto.
Qed.

End Matching.

(** ** The properties on sample data *)

Module SampleFacts.

Import Sample.

#[local] Existing Instance PyRe.engine.
#[local] Existing Instance cet.

Local Open Scope string_scope.

(** The example of the specification: A all day, B at ten for an hour,
    all-day events excluded, nine o'clock, no search: B. *)
Example select_b_at_nine :
  select_current None false (fun _ => jan1_instant 9) [occ_a; occ_b]
  = Ok (Some occ_b).
Proof. vm_compute. reflexivity. Qed.

(** The same at eleven, when B is over: none. *)
Example select_none_at_eleven :
  select_current None false (fun _ => jan1_instant 11) [occ_a; occ_b]
  = Ok None.
Proof. vm_compute. reflexivity. Qed.

(** [^Meeting] matches a summary that begins with it, without having to
    cover the whole summary, and no summary that has it further on; the
    same holds without the caret. *)
Example meeting_is_a_prefix_match :
  is_matching (with_summary "Meeting with Bob") (Some "^Meeting")
  = Ok (PyMatch 7%nat) /\
  is_matching (with_summary "Team Meeting") (Some "^Meeting") = Ok PyFalse /\
  is_matching (with_summary "Team Meeting") (Some "Meeting") = Ok PyFalse /\
  (forall r, PyRe.compile "^Meeting" = inl r ->
             PyRe.fullmatch r "Meeting with Bob" = None).
Proof.
  do 3 (split; [vm_compute; reflexivity|]).
  intros r H. vm_compute in H. injection H as <-. vm_compute. reflexivity.
Qed.



Lemma select_current_not_over_witness :
  select_current None true (fun _ => jan1_instant 9) [occ_b; occ_a]
  = Ok (Some occ_a) /\
  is_over (jan1_instant 9) occ_a = Ok false.
Proof.
  assert (H : select_current None true (fun _ => jan1_instant 9) [occ_b; occ_a]
              = Ok (Some occ_a)) by (vm_compute; reflexivity).
  split; [exact H|].
  exact (proj1 (select_current_not_over None true (jan1_instant 9)
                  [occ_b; occ_a] occ_a H)).
Defined.

Lemma select_current_skips_all_day_witness :
  select_current (Some ".*") false (fun _ => jan1_instant 0) [occ_a; occ_b]
  = Ok (Some occ_b) /\
  is_all_day occ_b = Ok false.
Proof.
  assert (H : select_current (Some ".*") false (fun _ => jan1_instant 0)
                [occ_a; occ_b] = Ok (Some occ_b)) by (vm_compute; reflexivity).
  split; [exact H|].
  exact (proj1 (select_current_skips_all_day (Some ".*")
                  (fun _ => jan1_instant 0) [occ_a; occ_b] occ_b H)).
Defined.

(** The empty pattern compiles and matches every text, yet
    [is_matching] is false of an event without text fields. *)
Lemma empty_pattern_rejects_bare_event :
  PyRe.compile "" = inl PyRe.Eps /\
  (forall text, PyRe.match_ PyRe.Eps text = Some 0%nat) /\
  is_matching bare (Some "") = Ok PyFalse.
Proof.
  repeat split.
Qed.

Lemma is_matching_clauses_witness :
  PyReSem.prefix_semantics PyRe.engine /\
  exists v,
    is_matching occ_a (Some "") = Ok v /\ (truthy v = true <-> ~ no_text occ_a).
Proof.
  split; [exact PyReFacts.engine_prefix_semantics|].
  exact (proj2 (proj2 (proj2
           (is_matching_clauses occ_a PyReFacts.engine_prefix_semantics)))).
Defined.

Lemma no_text_never_selected_witness :
  no_text bare /\
  re_compile ".*" = Some (PyRe.Cat (PyRe.Star PyRe.Dot) PyRe.Eps) /\
  is_matching bare (Some ".*") = Ok PyFalse.
Proof.
  assert (H1 : no_text bare) by (repeat split).
  assert (H2 : re_compile ".*" = Some (PyRe.Cat (PyRe.Star PyRe.Dot) PyRe.Eps))
    by reflexivity.
  split; [exact H1|]. split; [exact H2|].
  exact (proj1 (no_text_never_selected bare H1) ".*" _ H2).
Defined.

(** An unset search, by contrast, lets such an event through. *)
Example bare_event_selected_without_search :
  select_current None true (fun _ => jan1_instant 9) [bare] = Ok (Some bare).
Proof. vm_compute. reflexivity. Qed.

Section WithCalendar.

Lemma resolve_two_runs_witness :
  let ical := canned [occ_a; occ_b] in
  let a := watcher None in
  let b := set_event a (Some (mkHassEvent None (HDate 0) (HDate 1) None None)) in
  same_config a b /\ resolve a (jan1_world 9) = resolve b (jan1_world 9).
Proof.
  intros ical a b.
  assert (Hc : same_config a b) by (repeat split).
  split; [exact Hc|].
  exact (proj1 (resolve_two_runs no_iso a b (jan1_world 9)
                  (jan1_at 0) (jan1_at 24) Hc)).
Defined.



(** The three kinds of failure and the empty result, side by side. *)
Example outcomes_of_update :
  resolve (ical := canned [occ_b]) (watcher None) (world "" 0 0)
  = Raise ValueError /\
  resolve (ical := canned [occ_b; startless]) (watcher None) (jan1_world 9)
  = Raise KeyError /\
  resolve (ical := canned [occ_b]) (watcher (Some "(")) (jan1_world 9)
  = Raise re_error /\
  resolve (ical := canned [occ_b]) (watcher (Some "x")) (jan1_world 9)
  = Ok None.
Proof. vm_compute. repeat split. Qed.

End WithCalendar.

Section PingSample.

Import Ping.

#[local] Existing Instance small_ids.

Lemma ping_id_wraps_witness :
  DEFAULT_START_ID <= MAX_PING_ID /\
  exists ids data,
    calls 5 (async_setup (fun _ => false) None) = Ok (ids, data) /\
    in_range data /\
    Forall (fun id => DEFAULT_START_ID <= id <= MAX_PING_ID) ids.
Proof.
  assert (H : DEFAULT_START_ID <= MAX_PING_ID) by (simpl; lia).
  split; [exact H|].
  exact (proj2 (PingFacts.ping_id_wraps H) (fun _ => false) None 5%nat).
Defined.

(** The ids of five calls after set-up with the range 1..3. *)
Example five_ping_ids :
  calls 5 (async_setup (fun _ => false) None)
  = Ok ([2; 3; 1; 2; 3], Some (mkPing (Some true) 3)).
Proof. reflexivity. Qed.

End PingSample.

End SampleFacts.

(* ================================================================== *)
(** * Further properties *)

(** ** Instants and ends *)

Section Instants.

Context {re : ReModule} {dtu : DtUtil}.

Lemma start_instant_to_datetime (e : Event) (s : dtvalue) :
  DTSTART e = Some s -> start_instant e = instant (to_datetime s).
Proof.
  intros H. unfold start_instant, instant. rewrite H. reflexivity.
Qed.

Lemma is_over_by_instant (now_utc : Z) (e : Event) (en : dtvalue) :
  get_end_date e = Ok en ->
  is_over now_utc e = Ok (instant (to_datetime en) <=? now_utc).
Proof.
  intros He. destruct (is_over_instant now_utc e en He) as [z [Hz Ho]].
  unfold instant. rewrite Hz. exact Ho.
Qed.

Lemma instant_after_add (s v : dtvalue) (td : timedelta) :
  dt_add s td = Ok v ->
  instant (to_datetime v) = instant (to_datetime s) + effective_span s td.
Proof.
  destruct s as [d|[w [z|]]]; unfold dt_add, date_add, datetime_add;
    destruct (ordinal_ok _); cbn [bind]; intros H; inversion H; subst v;
    unfold instant, utc_of; simpl; lia.
Qed.

Lemma is_over_raise (now_utc : Z) (e : Event) (x : exn) :
  get_end_date e = Raise x -> is_over now_utc e = Raise x.
Proof.
  intros H. unfold is_over. rewrite H. reflexivity.
Qed.

(** X1.  [to_datetime] normalises: its result is aware, a second application
    changes nothing, and two results always compare, by their instants,
    so that no comparison in [update] can raise [TypeError]. *)
Theorem to_datetime_normal_form (v w : dtvalue) :
  (exists z, tz (to_datetime v) = Some z) /\
  to_datetime (DateTimeV (to_datetime v)) = to_datetime v /\
  datetime_lt (to_datetime v) (to_datetime w)
  = Ok (instant (to_datetime v) <? instant (to_datetime w)) /\
  datetime_ge (to_datetime v) (to_datetime w)
  = Ok (instant (to_datetime w) <=? instant (to_datetime v)).
Proof.
  destruct (to_datetime_aware v) as [zv Hv].
  destruct (to_datetime_aware w) as [zw Hw].
  split; [eauto|]. split.
  - unfold to_datetime at 1. rewrite Hv. reflexivity.
  - unfold datetime_lt, datetime_ge, instant. rewrite Hv, Hw. auto.
Qed.

(** X2.  Once an event is over it stays over: [is_over] is monotone in the
    clock reading. *)
Theorem is_over_monotone (now_utc later : Z) (e : Event) :
  now_utc <= later ->
  is_over now_utc e = Ok true ->
  is_over later e = Ok true.
Proof.
  intros Hle Ho. pose proof Ho as Ho'. unfold is_over in Ho'.
  apply bind_ok in Ho'. destruct Ho' as [en [Hen _]].
  rewrite (is_over_by_instant now_utc e en Hen) in Ho.
  rewrite (is_over_by_instant later e en Hen).
  assert (Hb : (instant (to_datetime en) <=? now_utc) = true) by congruence.
  apply Z.leb_le in Hb.
  f_equal. apply Z.leb_le. lia.
Qed.

(** X3.  An event with a start and neither [DTEND] nor [DURATION] is over
    exactly from one day after the instant it starts at, whether the
    start is a date, a naive or an aware datetime; when that day lies
    beyond the last date, [is_over] raises [OverflowError] instead. *)
Theorem default_end_one_day_after_start (now_utc : Z) (e : Event) :
  has_start e -> DTEND e = None -> DURATION e = None ->
  (no_overflow e ->
   is_over now_utc e = Ok (start_instant e + us_per_day <=? now_utc)) /\
  (get_end_date e = Raise OverflowError ->
   is_over now_utc e = Raise OverflowError).
Proof.
  unfold has_start. intros Hs He Hd.
  split; [|apply is_over_raise].
  intros Hn.
  destruct (get_end_date_has_start e Hs Hn) as [en Hen].
  destruct (DTSTART e) as [s|] eqn:Hstart; [|congruence].
  assert (Hadd : dt_add s (timedelta_days 1) = Ok en).
  { unfold get_end_date, get_dtstart_dt in Hen.
    rewrite He, Hd, Hstart in Hen. exact Hen. }
  rewrite (is_over_by_instant _ e _ Hen), (instant_after_add s en _ Hadd).
  rewrite (start_instant_to_datetime e s Hstart).
  do 2 f_equal. destruct s; reflexivity.
Qed.

(** X4.  With [DURATION] and no [DTEND] the event is over from its starting
    instant plus the duration when the start is a datetime, and plus
    the whole days of the duration when the start is a date; an
    all-day event whose duration is shorter than a day is therefore
    over from the instant it starts.  When the sum lies outside the
    range of dates, [is_over] raises [OverflowError] instead. *)
Theorem duration_end_by_kind_of_start (now_utc : Z) (e : Event)
  (s : dtvalue) (d : timedelta) :
  DTSTART e = Some s -> DTEND e = None -> DURATION e = Some d ->
  (no_overflow e ->
   is_over now_utc e
   = Ok (start_instant e + effective_span s d <=? now_utc)) /\
  (get_end_date e = Raise OverflowError ->
   is_over now_utc e = Raise OverflowError) /\
  (forall day, s = DateV day -> ordinal_ok day = true ->
               0 <= d < us_per_day ->
               is_over now_utc e = Ok (start_instant e <=? now_utc)).
Proof.
  intros Hstart He Hd.
  assert (Hs : has_start e) by (unfold has_start; congruence).
  assert (Hget : get_end_date e = dt_add s d).
  { unfold get_end_date, get_dtstart_dt. rewrite He, Hd, Hstart. reflexivity. }
  assert (Ho : forall en, dt_add s d = Ok en ->
               is_over now_utc e
               = Ok (start_instant e + effective_span s d <=? now_utc)).
  { intros en Hen.
    rewrite (is_over_by_instant now_utc e en) by congruence.
    rewrite (instant_after_add s en d Hen).
    rewrite (start_instant_to_datetime e s Hstart). reflexivity. }
  split; [|split; [apply is_over_raise|]].
  - intros Hn. destruct (get_end_date_has_start e Hs Hn) as [en Hen].
    apply (Ho en). congruence.
  - intros day -> Hday Hsmall.
    assert (Hadd : dt_add (DateV day) d = Ok (DateV day)).
    { unfold dt_add, date_add, td_days.
      rewrite (Z.div_small d us_per_day Hsmall), Z.add_0_r, Hday.
      reflexivity. }
    rewrite (Ho _ Hadd). unfold effective_span, td_days.
    rewrite (Z.div_small d us_per_day Hsmall). do 2 f_equal. lia.
Qed.

End Instants.

(** ** More on the sort and the selection *)

Lemma filter_perm {A : Type} (f : A -> bool) (l1 l2 : list A) :
  Permutation l1 l2 -> Permutation (filter f l1) (filter f l2).
Proof.
  induction 1 as [|x l1 l2 H IH|x y l|l1 l2 l3 H12 IH12 H23 IH23]; simpl.
  - constructor.
  - destruct (f x); [apply perm_skip|]; exact IH.
  - destruct (f x), (f y); try apply Permutation_refl. apply perm_swap.
  - eapply perm_trans; eassumption.
Qed.

Lemma find_first_ascending {A : Type} (rank : A -> Z) (P : A -> bool)
  (l : list A) (x : A) :
  ascending rank l -> find P l = Some x ->
  forall y, In y l -> P y = true -> rank x <= rank y.
Proof.
  unfold ascending. induction 1 as [|a l Hl IH Ha]; simpl; intros Hf y Hin Hy.
  - destruct Hin.
  - destruct (P a) eqn:Hpa.
    + inversion Hf; subst a. destruct Hin as [->|Hin]; [lia|].
      rewrite Forall_forall in Ha. apply Ha, Hin.
    + destruct Hin as [->|Hin]; [congruence|]. apply IH; assumption.
Qed.

Lemma of_rank_nodup {A : Type} (rank : A -> Z) (k : Z) (l : list A) :
  NoDup (map rank l) ->
  of_rank rank k l = [] \/ exists x, of_rank rank k l = [x].
Proof.
  induction l as [|a l IH]; simpl; intros Hnd.
  - left. reflexivity.
  - inversion Hnd as [|r rs Hnotin Hnd']; subst.
    unfold of_rank. simpl. destruct (rank a =? k) eqn:E.
    + right. exists a. f_equal. apply Z.eqb_eq in E.
      destruct (filter (fun x => rank x =? k) l) as [|b t] eqn:F;
        [reflexivity|].
      exfalso. apply Hnotin.
      assert (Hb : In b (filter (fun x => rank x =? k) l))
        by (rewrite F; left; reflexivity).
      apply filter_In in Hb. destruct Hb as [Hin Hk].
      apply Z.eqb_eq in Hk. rewrite E, <- Hk. apply in_map, Hin.
    + apply IH, Hnd'.
Qed.

Lemma stable_sort_perm_no_ties {A : Type} (rank : A -> Z) (l1 l2 : list A) :
  Permutation l1 l2 -> NoDup (map rank l1) ->
  stable_sort rank l1 = stable_sort rank l2.
Proof.
  intros Hp Hnd.
  destruct (stable_sort_spec A rank l1) as (_ & Ha1 & Hs1).
  destruct (stable_sort_spec A rank l2) as (_ & Ha2 & Hs2).
  apply (stable_sort_unique A rank); try assumption.
  intros k. rewrite Hs1, Hs2.
  pose proof (filter_perm (fun x => rank x =? k) l1 l2 Hp) as Hf.
  fold (of_rank rank k l1) in Hf. fold (of_rank rank k l2) in Hf.
  destruct (of_rank_nodup rank k l1 Hnd) as [E|[x E]]; rewrite E in *.
  - symmetry. apply Permutation_nil, Hf.
  - symmetry. apply Permutation_length_1_inv, Hf.
Qed.

Lemma has_start_or_missing (l : list Event) :
  Forall has_start l \/ exists e, In e l /\ DTSTART e = None.
Proof.
  induction l as [|x l [IH|[e [Hin He]]]].
  - left. constructor.
  - destruct (DTSTART x) eqn:Hx.
    + left. constructor; [unfold has_start; congruence | exact IH].
    + right. exists x. split; [left; reflexivity | exact Hx].
  - right. exists e. split; [right; exact Hin | exact He].
Qed.

Section SelectionMore.

Context {re : ReModule} {dtu : DtUtil}.

Lemma sort_events_raise_inv (l : list Event) (x : exn) :
  sort_events l = Raise x -> x = KeyError.
Proof.
  destruct (has_start_or_missing l) as [Hs|Hm].
  - rewrite (sort_events_has_start l Hs). discriminate.
  - rewrite (sort_events_missing_start l Hm). congruence.
Qed.

(** X5.  The sort of [update] fails in one way only: it raises [KeyError]
    exactly when some event has no [DTSTART], and otherwise returns a
    permutation of the events; no mix of dates, naive and aware
    datetimes makes it raise. *)
Theorem sort_events_outcome (l : list Event) :
  (sort_events l = Raise KeyError <-> exists e, In e l /\ DTSTART e = None) /\
  (forall x, sort_events l = Raise x -> x = KeyError) /\
  (forall s, sort_events l = Ok s -> Forall has_start l /\ Permutation l s).
Proof.
  assert (Hok : forall s, sort_events l = Ok s ->
                          Forall has_start l /\ Permutation l s).
  { intros s H. apply sort_events_ok_inv in H. destruct H as [Hs ->].
    split; [exact Hs | apply stable_sort_spec]. }
  destruct (has_start_or_missing l) as [Hs|Hm].
  - pose proof (sort_events_has_start l Hs) as E.
    repeat split; try (intros; congruence); try (apply Hok; assumption).
    intros [e [Hin He]]. rewrite Forall_forall in Hs.
    exfalso. apply (Hs e Hin), He.
  - pose proof (sort_events_missing_start l Hm) as E.
    repeat split; try (intros; congruence); try (apply Hok; assumption).
Qed.

(** X6.  Sorting what the sort returned changes nothing. *)
Theorem sort_events_idempotent (l s : list Event) :
  sort_events l = Ok s -> sort_events s = Ok s.
Proof.
  intros H. apply sort_events_ok_inv in H. destruct H as [Hs ->].
  destruct (stable_sort_spec Event start_instant l) as (Hp & Ha & _).
  assert (Hs' : Forall has_start (stable_sort start_instant l))
    by (eapply Permutation_Forall; eassumption).
  rewrite (sort_events_has_start _ Hs'). f_equal.
  destruct (stable_sort_spec Event start_instant
              (stable_sort start_instant l)) as (_ & Ha2 & Hst2).
  apply (stable_sort_unique Event start_instant); assumption.
Qed.

(** X7.  When every event has a start and an end within the range of
    dates, the event selected is the earliest one that qualifies: it
    is one of the events, passes the three tests, and no event that
    passes them starts at an earlier instant; nothing is selected
    exactly when no event passes them. *)
Theorem select_current_earliest
  (search_ : option string) (inc : bool) (now_utc : Z) (events : list Event) :
  Forall has_start events -> Forall no_overflow events -> search_ok search_ ->
  exists r,
    select_current search_ inc (fun _ => now_utc) events = Ok r /\
    match r with
    | Some e =>
        In e events /\ qualifies search_ inc now_utc e = true /\
        forall e', In e' events -> qualifies search_ inc now_utc e' = true ->
                   start_instant e <= start_instant e'
    | None =>
        forall e', In e' events -> qualifies search_ inc now_utc e' = false
    end.
Proof.
  intros Hs Hn Hsearch.
  set (sorted := stable_sort start_instant events).
  destruct (stable_sort_spec Event start_instant events) as (Hp & Ha & _).
  fold sorted in Hp, Ha.
  assert (Hsel : select_current search_ inc (fun _ => now_utc) events
                 = Ok (find (qualifies search_ inc now_utc) sorted)).
  { unfold select_current.
    rewrite (sort_events_has_start events Hs). cbn [bind].
    apply next_event_find.
    apply Forall_forall. intros e He.
    assert (Hin : In e events)
      by (eapply Permutation_in; [apply Permutation_sym, Hp | exact He]).
    rewrite Forall_forall in Hs, Hn.
    apply tests_return_has_start; auto. }
  exists (find (qualifies search_ inc now_utc) sorted).
  split; [exact Hsel|].
  destruct (find (qualifies search_ inc now_utc) sorted) as [e|] eqn:Hf.
  - destruct (find_some _ _ Hf) as [Hin Hq].
    split; [eapply Permutation_in; [apply Permutation_sym, Hp | exact Hin]|].
    split; [exact Hq|].
    intros e' Hin' Hq'.
    apply (find_first_ascending start_instant _ sorted e Ha Hf);
      [eapply Permutation_in; eassumption | exact Hq'].
  - intros e' Hin'. apply (find_none _ _ Hf).
    eapply Permutation_in; eassumption.
Qed.

(** X8.  When no two events start at the same instant, the order in which
    the events were fetched does not matter to the selection. *)
Theorem select_current_order_irrelevant
  (search_ : option string) (inc : bool) (clock : nat -> Z)
  (l1 l2 : list Event) :
  Permutation l1 l2 -> NoDup (map start_instant l1) ->
  select_current search_ inc clock l1 = select_current search_ inc clock l2.
Proof.
  intros Hp Hnd. unfold select_current.
  destruct (has_start_or_missing l1) as [Hs|[e [Hin He]]].
  - assert (Hs2 : Forall has_start l2)
      by (eapply Permutation_Forall; eassumption).
    rewrite (sort_events_has_start l1 Hs), (sort_events_has_start l2 Hs2).
    rewrite (stable_sort_perm_no_ties start_instant l1 l2 Hp Hnd).
    reflexivity.
  - rewrite (sort_events_missing_start l1), (sort_events_missing_start l2);
      [reflexivity | | eauto].
    exists e. split; [eapply Permutation_in; eassumption | exact He].
Qed.

End SelectionMore.

(** ** More on update and async_get_events *)

Section UpdateMore.

Context {re : ReModule} {dtu : DtUtil} {ical : ICalLib}.

Variable get_date_isoformat : hass_date -> string.

(** A successful [update] that stores an event selected it from the
    fetched events and built the dictionary from it. *)
Lemma update_some_inv (self self' : ICalendarCalendarData)
  (w : World) (ev : hass_event) :
  update self w = Ok self' -> event self' = Some ev ->
  self' = set_event self (Some ev) /\
  exists events e,
    fetched self w = Ok events /\
    select_current (search self) (include_all_day self) (dt_now_utc w) events
    = Ok (Some e) /\
    populate e = Ok ev.
Proof.
  intros Hu Hev. rewrite update_resolve in Hu.
  apply bind_ok in Hu. destruct Hu as [v [Hr Hu]]. inversion Hu; subst self'.
  simpl in Hev. subst v. split; [reflexivity|].
  rewrite resolve_fetched in Hr.
  apply bind_ok in Hr. destruct Hr as [events [Hf Hr]].
  apply bind_ok in Hr. destruct Hr as [found [Hsel Hr]].
  destruct found as [e|]; [|discriminate].
  apply bind_ok in Hr. destruct Hr as [ev' [Hp Hr]]. inversion Hr; subst ev'.
  exists events, e. auto.
Qed.

Lemma populate_inv (e : Event) (ev : hass_event) :
  populate e = Ok ev ->
  exists s en,
    DTSTART e = Some s /\ get_end_date e = Ok en /\
    ev = mkHassEvent (SUMMARY e) (get_hass_date s) (get_hass_date en)
           (LOCATION e) (DESCRIPTION e).
Proof.
  unfold populate. intros Hp.
  apply bind_ok in Hp. destruct Hp as [s [Hs Hp]].
  apply bind_ok in Hp. destruct Hp as [en [Hen Hp]]. inversion Hp; subst ev.
  unfold get_dtstart_dt in Hs.
  destruct (DTSTART e) as [s'|] eqn:Hstart; [|discriminate].
  inversion Hs; subst s'. exists s, en. repeat split; try assumption.
  unfold get_attr_value. destruct (LOCATION e), (DESCRIPTION e); reflexivity.
Qed.

(** With all-day events excluded the stored start is a [dateTime]. *)
Lemma update_start_is_datetime (self self' : ICalendarCalendarData)
  (w : World) (ev : hass_event) :
  update self w = Ok self' -> event self' = Some ev ->
  include_all_day self = false ->
  exists t, start ev = HDateTime t.
Proof.
  intros Hu Hev Hinc.
  destruct (update_some_inv self self' w ev Hu Hev)
    as (_ & events & e & _ & Hsel & Hp).
  destruct (populate_inv e ev Hp) as (s & en & Hstart & _ & ->).
  apply select_current_some in Hsel.
  destruct Hsel as (_ & m & a & k & _ & _ & Ha & Ht & _).
  rewrite Hinc, orb_false_r in Ht. apply negb_true_iff in Ht. subst a.
  unfold is_all_day, get_dtstart_dt in Ha. rewrite Hstart in Ha.
  simpl in Ha. destruct s as [d|t]; [discriminate|]. simpl. eauto.
Qed.

(** With a search set the stored event has a summary, a location or a
    description. *)
Lemma update_event_has_text (self self' : ICalendarCalendarData)
  (w : World) (ev : hass_event) (s : string) :
  update self w = Ok self' -> event self' = Some ev ->
  search self = Some s ->
  ~ (summary ev = None /\ location ev = None /\ description ev = None).
Proof.
  intros Hu Hev Hs (H1 & H2 & H3).
  destruct (update_some_inv self self' w ev Hu Hev)
    as (_ & events & e & _ & Hsel & Hp).
  destruct (populate_inv e ev Hp) as (st & en & _ & _ & ->).
  simpl in H1, H2, H3.
  apply select_current_some in Hsel.
  destruct Hsel as (_ & m & a & k & Hm & Htm & _).
  rewrite Hs in Hm.
  destruct (re_compile s) as [p|] eqn:Hc.
  - rewrite (is_matching_no_text e s p) in Hm by (unfold no_text; auto).
    inversion Hm; subst. discriminate.
  - rewrite (is_matching_not_compiled e s Hc) in Hm. discriminate.
Qed.

(** X10.  The dictionary [update] stores describes one of the fetched events:
    summary, location and description are the event's, start and end
    are its start and its derived end; the event was not over at one of
    the clock readings; and unless all-day events are included the
    start is stored as a [dateTime], never as a [date].  The
    configuration of the object is not touched. *)
Theorem update_stores_fetched_event (self self' : ICalendarCalendarData)
  (w : World) (ev : hass_event) :
  update self w = Ok self' -> event self' = Some ev ->
  same_config self self' /\
  exists events e s en,
    fetched self w = Ok events /\ In e events /\
    DTSTART e = Some s /\ get_end_date e = Ok en /\
    ev = mkHassEvent (SUMMARY e) (get_hass_date s) (get_hass_date en)
           (LOCATION e) (DESCRIPTION e) /\
    (exists k, is_over (dt_now_utc w k) e = Ok false) /\
    (include_all_day self = false -> exists t, start ev = HDateTime t).
Proof.
  intros Hu Hev.
  destruct (update_some_inv self self' w ev Hu Hev)
    as (Hself & events & e & Hf & Hsel & Hp).
  split; [rewrite Hself; apply same_config_set_event|].
  destruct (populate_inv e ev Hp) as (s & en & Hstart & Hen & Hev').
  pose proof (select_current_some _ _ _ _ _ Hsel)
    as (Hin & m & a & k & _ & _ & _ & _ & Ho).
  exists events, e, s, en. repeat split; try assumption.
  - eauto.
  - intros Hinc. eapply update_start_is_datetime; eassumption.
Qed.

Lemma mapM_event_to_data (events : list Event) (l : list event_data) :
  mapM (event_to_data get_date_isoformat) events = Ok l ->
  Forall has_start events /\
  Forall no_overflow events /\
  map data_uid l = map UID events /\
  map data_summary l = map SUMMARY events /\
  map data_location l = map LOCATION events /\
  map data_description l = map DESCRIPTION events.
Proof.
  revert l. induction events as [|e events IH]; intros l H; simpl in H.
  - inversion H; subst. repeat split; constructor.
  - apply bind_ok in H. destruct H as [d [Hd H]].
    apply bind_ok in H. destruct H as [ds [Hds H]]. inversion H; subst l.
    destruct (IH ds Hds) as (Hs & Hn & Hu & Hsum & Hl & Hde).
    destruct (event_to_data_start get_date_isoformat e)
      as [(He & Hne & _)|[[_ He]|(_ & _ & He)]]; try congruence.
    unfold event_to_data in Hd.
    apply bind_ok in Hd. destruct Hd as [s [_ Hd]].
    apply bind_ok in Hd. destruct Hd as [en [_ Hd]]. inversion Hd; subst d.
    simpl. rewrite Hu, Hsum, Hl, Hde.
    unfold get_attr_value.
    destruct (UID e), (LOCATION e), (DESCRIPTION e);
      repeat split; try reflexivity; constructor; assumption.
Qed.

Lemma mapM_event_to_data_ok (events : list Event) :
  Forall has_start events -> Forall no_overflow events ->
  exists l, mapM (event_to_data get_date_isoformat) events = Ok l.
Proof.
  induction 1 as [|e events He Hl IH]; intros Hn; simpl; [eauto|].
  inversion Hn as [|e' events' Hne Hn']; subst.
  destruct (IH Hn') as [l Hl'].
  destruct (event_to_data_start get_date_isoformat e)
    as [(_ & _ & [d Hd])|[[Hd _]|(_ & Ho & _)]].
  - rewrite Hd, Hl'. simpl. eauto.
  - unfold has_start in He. congruence.
  - exfalso. apply Hne, Ho.
Qed.

(** X11.  [async_get_events] returns one dictionary per event of the window,
    in the order the library gave them, with uid, summary, location and
    description carried over; it succeeds exactly when the document
    parses, every event has a start and no derived end leaves the
    range of dates; and neither the search nor the all-day flag nor
    [days] has any influence on it. *)
Theorem async_get_events_one_per_event (self : ICalendarCalendarData)
  (w : World) (start_date end_date : datetime) :
  (forall l,
      async_get_events get_date_isoformat self w start_date end_date = Ok l ->
      exists events,
        icalendar_get_events self w start_date end_date = Ok events /\
        Forall has_start events /\
        Forall no_overflow events /\
        map data_uid l = map UID events /\
        map data_summary l = map SUMMARY events /\
        map data_location l = map LOCATION events /\
        map data_description l = map DESCRIPTION events) /\
  (forall events,
      icalendar_get_events self w start_date end_date = Ok events ->
      Forall has_start events ->
      Forall no_overflow events ->
      exists l,
        async_get_events get_date_isoformat self w start_date end_date = Ok l) /\
  (forall days_ inc search_ ev,
      async_get_events get_date_isoformat
        (mkData (url self) (auth self) days_ inc search_ ev)
        w start_date end_date
      = async_get_events get_date_isoformat self w start_date end_date).
Proof.
  split; [|split].
  - intros l H. unfold async_get_events in H.
    apply bind_ok in H. destruct H as [events [Hf H]].
    exists events. split; [exact Hf|]. apply mapM_event_to_data, H.
  - intros events Hf Hs Hn. unfold async_get_events. rewrite Hf. cbn [bind].
    apply mapM_event_to_data_ok; assumption.
  - intros. reflexivity.
Qed.

(** X12.  Credentials are sent only when a user name and a password are both
    given and both non-empty; with either missing or empty the
    document is requested without authentication. *)
Theorem credentials_need_both (url_ : string) (username password : option string)
  (days_ : Z) (inc : bool) (search_ : option string) :
  (forall u p,
      auth (init url_ username password days_ inc search_) = Some (u, p) <->
      username = Some u /\ password = Some p /\
      u <> EmptyString /\ p <> EmptyString) /\
  (str_truthy username && str_truthy password = false ->
   forall w start_date end_date,
     icalendar_get_events (init url_ username password days_ inc search_)
       w start_date end_date
     = match from_ical (requests_get_text w url_ None) with
       | None => Raise ValueError
       | Some calendar =>
           Ok (between calendar (replace_tzinfo start_date None)
                 (replace_tzinfo end_date None))
       end).
Proof.
  split.
  - intros u p. unfold init. cbn [auth].
    destruct username as [[|c u']|], password as [[|c' p']|];
      cbn [str_truthy andb]; split; intros H;
      try discriminate H;
      try (destruct H as (H1 & H2 & H3 & H4); congruence).
    inversion H; subst. repeat split; discriminate.
  - intros Hf w sd ed. unfold icalendar_get_events, init. cbn [auth url].
    destruct username as [[|c u']|], password as [[|c' p']|];
      cbn [str_truthy andb] in *; try reflexivity; discriminate.
Qed.

End UpdateMore.

(** ** The device and the platform *)

Section DeviceFacts.

Context {re : ReModule} {dtu : DtUtil} {ical : ICalLib} {host : CalendarHost}.

Lemma device_update_inv (dev dev' : ICalendarCalendarEventDevice) (w : World) :
  device_update dev w = Ok dev' ->
  update (data dev) w = Ok (data dev') /\
  entity_id dev' = entity_id dev /\ _name dev' = _name dev /\
  match event (data dev') with
  | None => _event dev' = None /\ _offset_reached dev' = _offset_reached dev
  | Some ev =>
      _event dev' = Some (calculate_offset ev OFFSET) /\
      _offset_reached dev' = is_offset_reached w (calculate_offset ev OFFSET)
  end.
Proof.
  unfold device_update. intros H.
  apply bind_ok in H. destruct H as [d' [Hu H]].
  destruct (event d') as [ev|] eqn:Hev; inversion H; subst dev'; simpl;
    rewrite Hev; auto.
Qed.

(** X13.  An [update] of the device that finds no event clears the event but
    leaves [offset_reached] as the previous update set it: the state
    attribute can remain true when there is no event any more. *)
Theorem offset_reached_survives_empty_update
  (dev dev' : ICalendarCalendarEventDevice) (w : World) :
  device_update dev w = Ok dev' ->
  event (data dev') = None ->
  _event dev' = None /\
  device_state_attributes dev' = device_state_attributes dev.
Proof.
  intros H Hev. apply device_update_inv in H.
  destruct H as (_ & _ & _ & H). rewrite Hev in H. exact H.
Qed.

Lemma platform_invariant_update (config : PlatformConfig)
  (dev dev' : ICalendarCalendarEventDevice) (w : World) :
  platform_invariant config dev ->
  device_update dev w = Ok dev' ->
  platform_invariant config dev'.
Proof.
  intros (Hid & Hname & Hurl & Hdays & Hsearch & Hinc & _ & _) H.
  apply device_update_inv in H. destruct H as (Hu & Hid' & Hname' & Hcase).
  assert (Hc : same_config (data dev) (data dev')).
  { rewrite update_resolve in Hu.
    apply bind_ok in Hu. destruct Hu as [v [_ Hu]]. inversion Hu.
    apply same_config_set_event. }
  destruct Hc as (Hc1 & _ & Hc3 & Hc4 & Hc5).
  unfold platform_invariant.
  rewrite Hid', Hname', <- Hc1, <- Hc3, <- Hc4, <- Hc5.
  repeat split; try assumption.
  - intros He. destruct (event (data dev')) as [ev|]; [|reflexivity].
    destruct Hcase as [Hcase _]. congruence.
  - intros He. rewrite He in Hcase. tauto.
  - eapply update_start_is_datetime; eassumption.
  - eapply update_event_has_text; eassumption.
Qed.

(** X14.  An entity the platform sets up never shows an all-day event and
    never an event without summary, location and description, whatever
    the history of its updates, failed ones included: it excludes
    all-day events, its search is always set, and both settings, like
    its name and entity id, survive every update.  ([verify_ssl] of the
    configuration is read nowhere.) *)
Theorem platform_entity_invariant (config : PlatformConfig)
  (dev : ICalendarCalendarEventDevice) (ws : list World) :
  In dev (setup_platform config) ->
  platform_invariant config (run_updates ws dev).
Proof.
  intros Hin.
  assert (H0 : platform_invariant config dev).
  { destruct Hin as [<-|[]]. unfold platform_invariant. simpl.
    repeat split; try reflexivity; intros; discriminate. }
  clear Hin. revert dev H0.
  induction ws as [|w ws IH]; intros dev H0; simpl.
  - exact H0.
  - destruct (device_update dev w) as [dev'|x] eqn:Hu.
    + apply IH. eapply platform_invariant_update; eassumption.
    + apply IH, H0.
Qed.

End DeviceFacts.

(** ** The cycle of ping ids *)

Module PingCycleFacts.

Import Ping PingCycle.

Lemma mod_eq_close (a b n : Z) :
  0 < n -> a mod n = b mod n -> - n < a - b < n -> a = b.
Proof.
  intros Hn He Hd.
  pose proof (Z.div_mod a n ltac:(lia)) as Ha.
  pose proof (Z.div_mod b n ltac:(lia)) as Hb.
  assert (Hq : a - b = n * (a / n - b / n)) by lia.
  set (q := a / n - b / n) in *. clearbody q. clear Ha Hb He.
  assert (q = 0) by nia.
  subst q. lia.
Qed.

Lemma NoDup_map_on {A B : Type} (f : A -> B) (l : list A) :
  NoDup l ->
  (forall x y, In x l -> In y l -> f x = f y -> x = y) ->
  NoDup (map f l).
Proof.
  induction 1 as [|a l Hnotin Hnd IH]; intros Hinj; simpl; constructor.
  - intros Hin. apply in_map_iff in Hin. destruct Hin as [y [Hy Hiny]].
    assert (y = a) by (apply Hinj; [right; exact Hiny | left; reflexivity | exact Hy]).
    subst y. contradiction.
  - apply IH. intros x y Hx Hy. apply Hinj; right; assumption.
Qed.

Section WithConst.

Context {c : Const}.

Hypothesis range : DEFAULT_START_ID <= MAX_PING_ID.

Lemma period_pos : 0 < period.
Proof. unfold period. lia. Qed.

Lemma id_after_in_range (id0 k : Z) :
  DEFAULT_START_ID <= id_after id0 k <= MAX_PING_ID.
Proof.
  unfold id_after.
  pose proof (Z.mod_pos_bound (id0 - DEFAULT_START_ID + k) period period_pos).
  unfold period in *. lia.
Qed.

Lemma id_after_add (id0 j k : Z) :
  id_after (id_after id0 j) k = id_after id0 (j + k).
Proof.
  unfold id_after. f_equal.
  replace (DEFAULT_START_ID + (id0 - DEFAULT_START_ID + j) mod period
           - DEFAULT_START_ID + k)
    with ((id0 - DEFAULT_START_ID + j) mod period + k) by lia.
  rewrite Zplus_mod_idemp_l. f_equal. lia.
Qed.

Lemma id_after_zero (id0 : Z) :
  DEFAULT_START_ID <= id0 <= MAX_PING_ID -> id_after id0 0 = id0.
Proof.
  intros H. unfold id_after. rewrite Z.add_0_r.
  rewrite Z.mod_small by (unfold period; lia). lia.
Qed.

Lemma next_id_is_id_after (id0 : Z) :
  DEFAULT_START_ID <= id0 <= MAX_PING_ID ->
  (if id0 =? MAX_PING_ID then DEFAULT_START_ID else id0 + 1) = id_after id0 1.
Proof.
  intros H. unfold id_after. destruct (id0 =? MAX_PING_ID) eqn:E.
  - apply Z.eqb_eq in E. subst id0.
    replace (MAX_PING_ID - DEFAULT_START_ID + 1) with period by reflexivity.
    rewrite Z.mod_same by (pose proof period_pos; lia). lia.
  - apply Z.eqb_neq in E.
    rewrite Z.mod_small by (unfold period; lia). lia.
Qed.

Lemma ids_from_succ (id0 : Z) (n : nat) :
  ids_from id0 (S n) = id_after id0 1 :: ids_from (id_after id0 1) n.
Proof.
  unfold ids_from. cbn [seq map]. f_equal.
  rewrite <- seq_shift, map_map. apply map_ext. intros k.
  rewrite id_after_add. f_equal. lia.
Qed.

Lemma calls_closed_form (n : nat) :
  forall d,
    DEFAULT_START_ID <= PING_ID d <= MAX_PING_ID ->
    calls n (Some d)
    = Ok (ids_from (PING_ID d) n,
          Some (mkPing (PING_PRIVS d) (id_after (PING_ID d) (Z.of_nat n)))).
Proof.
  induction n as [|n IH]; intros d Hd.
  - cbn [calls]. rewrite id_after_zero by exact Hd. destruct d; reflexivity.
  - cbn [calls]. rewrite PingFacts.next_ping_id_step. cbn [bind fst snd].
    rewrite (next_id_is_id_after _ Hd).
    rewrite IH by (apply id_after_in_range). cbn [bind fst snd PING_ID PING_PRIVS].
    rewrite ids_from_succ, id_after_add.
    replace (1 + Z.of_nat n) with (Z.of_nat (S n)) by lia. reflexivity.
Qed.

End WithConst.

Section Cycle.

Context {c : Const}.

(** X15.  The ids go round the range: from a stored id of the range, [n]
    calls return the next [n] ids in cyclic order and store the last;
    the privilege entry is left alone; and after as many calls as the
    range has ids the data are what they were. *)
Theorem ping_ids_cycle (d : ping_data) (n : nat) :
  DEFAULT_START_ID <= MAX_PING_ID ->
  DEFAULT_START_ID <= PING_ID d <= MAX_PING_ID ->
  calls n (Some d)
  = Ok (ids_from (PING_ID d) n,
        Some (mkPing (PING_PRIVS d) (id_after (PING_ID d) (Z.of_nat n)))) /\
  exists ids, calls (Z.to_nat period) (Some d) = Ok (ids, Some d).
Proof.
  intros Hr Hd. split; [apply calls_closed_form; assumption|].
  eexists. rewrite (calls_closed_form Hr _ d Hd). do 3 f_equal.
  pose proof (period_pos Hr) as Hp.
  rewrite Z2Nat.id by lia. unfold id_after.
  replace (PING_ID d - DEFAULT_START_ID + period)
    with (PING_ID d - DEFAULT_START_ID + 1 * period) by lia.
  rewrite Z.mod_add by lia.
  rewrite Z.mod_small by (unfold period; lia).
  destruct d; simpl; f_equal; lia.
Qed.

(** X16.  No id is handed out twice within as many calls as the range has
    ids. *)
Theorem ping_ids_no_reuse (d : ping_data) (n : nat)
  (ids : list Z) (data' : hass_data) :
  DEFAULT_START_ID <= MAX_PING_ID ->
  DEFAULT_START_ID <= PING_ID d <= MAX_PING_ID ->
  Z.of_nat n <= period ->
  calls n (Some d) = Ok (ids, data') ->
  NoDup ids.
Proof.
  intros Hr Hd Hn H. rewrite (calls_closed_form Hr n d Hd) in H.
  inversion H; subst. unfold ids_from.
  apply NoDup_map_on; [apply seq_NoDup|].
  intros x y Hx Hy Heq. apply in_seq in Hx. apply in_seq in Hy.
  unfold id_after in Heq.
  assert (Hm : (PING_ID d - DEFAULT_START_ID + (Z.of_nat x + 1)) mod period
               = (PING_ID d - DEFAULT_START_ID + (Z.of_nat y + 1)) mod period)
    by lia.
  apply mod_eq_close in Hm; [lia | apply period_pos, Hr | lia].
Qed.

(** X17.  The wrap is an equality test: from a stored id above [MAX_PING_ID]
    the ids only grow and never return to the range. *)
Theorem ping_id_above_max_never_wraps (d : ping_data) (n : nat) :
  MAX_PING_ID < PING_ID d ->
  calls n (Some d)
  = Ok (map (fun k => PING_ID d + Z.of_nat k + 1) (seq 0 n),
        Some (mkPing (PING_PRIVS d) (PING_ID d + Z.of_nat n))).
Proof.
  revert d. induction n as [|n IH]; intros d Hd.
  - cbn [calls seq map]. rewrite Z.add_0_r. destruct d; reflexivity.
  - cbn [calls]. rewrite PingFacts.next_ping_id_step.
    replace (PING_ID d =? MAX_PING_ID) with false
      by (symmetry; apply Z.eqb_neq; lia).
    cbn [bind fst snd]. rewrite IH by (simpl; lia).
    cbn [bind fst snd PING_ID PING_PRIVS seq map].
    rewrite <- seq_shift, map_map.
    replace (PING_ID d + Z.of_nat 0 + 1) with (PING_ID d + 1) by lia.
    replace (PING_ID d + Z.of_nat (S n)) with (PING_ID d + 1 + Z.of_nat n)
      by lia.
    do 3 f_equal. apply map_ext. intros k. lia.
Qed.

End Cycle.

End PingCycleFacts.

(** ** The further properties on sample data *)

Module MoreSampleFacts.

Import Sample.

#[local] Existing Instance PyRe.engine.
#[local] Existing Instance cet.
#[local] Existing Instance plain_host.

Local Open Scope string_scope.
Local Open Scope Z_scope.

Lemma is_over_monotone_witness :
  jan1_instant 11 <= jan1_instant 12 /\
  is_over (jan1_instant 11) occ_b = Ok true /\
  is_over (jan1_instant 12) occ_b = Ok true.
Proof.
  assert (H1 : jan1_instant 11 <= jan1_instant 12) by (vm_compute; discriminate).
  assert (H2 : is_over (jan1_instant 11) occ_b = Ok true) by reflexivity.
  split; [exact H1|]. split; [exact H2|].
  exact (is_over_monotone (jan1_instant 11) (jan1_instant 12) occ_b H1 H2).
Defined.

Lemma default_end_one_day_after_start_witness :
  has_start occ_a /\ DTEND occ_a = None /\ DURATION occ_a = None /\
  no_overflow occ_a /\
  is_over (jan1_instant 9) occ_a
  = Ok (start_instant occ_a + us_per_day <=? jan1_instant 9).
Proof.
  assert (H1 : has_start occ_a) by discriminate.
  assert (H2 : no_overflow occ_a)
    by (unfold no_overflow; vm_compute; discriminate).
  split; [exact H1|]. do 2 (split; [reflexivity|]). split; [exact H2|].
  exact (proj1 (default_end_one_day_after_start (jan1_instant 9) occ_a H1
                  eq_refl eq_refl) H2).
Defined.

(** On the last day there is, the default end does not exist. *)
Example last_day_has_no_default_end :
  is_over (jan1_instant 9) last_day = Raise OverflowError.
Proof. vm_compute. reflexivity. Qed.

Lemma duration_end_by_kind_of_start_witness :
  ordinal_ok jan1 = true /\
  0 <= us_per_hour < us_per_day /\
  is_over (jan1_instant 0) short_all_day
  = Ok (start_instant short_all_day <=? jan1_instant 0).
Proof.
  assert (H0 : ordinal_ok jan1 = true) by reflexivity.
  assert (H : 0 <= us_per_hour < us_per_day)
    by (split; vm_compute; [discriminate | reflexivity]).
  split; [exact H0|]. split; [exact H|].
  exact (proj2 (proj2 (duration_end_by_kind_of_start (jan1_instant 0)
                         short_all_day (DateV jan1) us_per_hour
                         eq_refl eq_refl eq_refl))
           jan1 eq_refl H0 H).
Defined.

Lemma sort_events_outcome_witness :
  (exists e, In e [occ_b; startless] /\ DTSTART e = None) /\
  sort_events [occ_b; startless] = Raise KeyError.
Proof.
  assert (H : exists e, In e [occ_b; startless] /\ DTSTART e = None).
  { exists startless. split; [right; left; reflexivity | reflexivity]. }
  split; [exact H|].
  exact (proj2 (proj1 (sort_events_outcome [occ_b; startless])) H).
Defined.

Lemma sort_events_idempotent_witness :
  sort_events [occ_b; occ_a] = Ok [occ_a; occ_b] /\
  sort_events [occ_a; occ_b] = Ok [occ_a; occ_b].
Proof.
  assert (H : sort_events [occ_b; occ_a] = Ok [occ_a; occ_b]) by reflexivity.
  split; [exact H|].
  exact (sort_events_idempotent [occ_b; occ_a] [occ_a; occ_b] H).
Defined.

Lemma select_current_earliest_witness :
  Forall has_start [occ_c; occ_b; occ_a] /\
  Forall no_overflow [occ_c; occ_b; occ_a] /\
  search_ok (Some ".*") /\
  exists r,
    select_current (Some ".*") false (fun _ => jan1_instant 9)
      [occ_c; occ_b; occ_a] = Ok r /\
    match r with
    | Some e =>
        In e [occ_c; occ_b; occ_a] /\
        qualifies (Some ".*") false (jan1_instant 9) e = true /\
        forall e', In e' [occ_c; occ_b; occ_a] ->
                   qualifies (Some ".*") false (jan1_instant 9) e' = true ->
                   start_instant e <= start_instant e'
    | None =>
        forall e', In e' [occ_c; occ_b; occ_a] ->
                   qualifies (Some ".*") false (jan1_instant 9) e' = false
    end.
Proof.
  assert (H1 : Forall has_start [occ_c; occ_b; occ_a])
    by (repeat constructor; discriminate).
  assert (H1' : Forall no_overflow [occ_c; occ_b; occ_a])
    by (repeat constructor; unfold no_overflow; vm_compute; discriminate).
  assert (H2 : search_ok (Some ".*")) by discriminate.
  split; [exact H1|]. split; [exact H1'|]. split; [exact H2|].
  exact (select_current_earliest (Some ".*") false (jan1_instant 9)
           [occ_c; occ_b; occ_a] H1 H1' H2).
Defined.

Lemma select_current_order_irrelevant_witness :
  Permutation [occ_a; occ_b] [occ_b; occ_a] /\
  NoDup (map start_instant [occ_a; occ_b]) /\
  select_current None true (fun _ => jan1_instant 9) [occ_a; occ_b]
  = select_current None true (fun _ => jan1_instant 9) [occ_b; occ_a].
Proof.
  assert (H1 : Permutation [occ_a; occ_b] [occ_b; occ_a]) by apply perm_swap.
  assert (H2 : NoDup (map start_instant [occ_a; occ_b])).
  { constructor; [|constructor; [intros []|constructor]].
    intros [H|[]]. vm_compute in H. discriminate. }
  split; [exact H1|]. split; [exact H2|].
  exact (select_current_order_irrelevant None true (fun _ => jan1_instant 9)
           [occ_a; occ_b] [occ_b; occ_a] H1 H2).
Defined.

(** With two events starting at the same instant the order does show. *)
Example ties_keep_fetch_order :
  select_current None true (fun _ => jan1_instant 9)
    [with_summary "one"; with_summary "two"]
  = Ok (Some (with_summary "one")) /\
  select_current None true (fun _ => jan1_instant 9)
    [with_summary "two"; with_summary "one"]
  = Ok (Some (with_summary "two")).
Proof. split; vm_compute; reflexivity. Qed.

Section WithCalendar.

Lemma update_stores_fetched_event_witness :
  let ical := canned [occ_a; occ_b] in
  exists self' ev,
    update (watcher None) (jan1_world 9) = Ok self' /\
    event self' = Some ev /\
    same_config (watcher None) self'.
Proof.
  intros ical. do 2 eexists.
  split; [lazy; reflexivity|]. split; [reflexivity|].
  refine (proj1 (update_stores_fetched_event (watcher None) _ (jan1_world 9) _
                   _ _)); reflexivity.
Defined.

Lemma async_get_events_one_per_event_witness :
  let ical := canned [occ_a; occ_b] in
  icalendar_get_events (watcher None) (jan1_world 9) (jan1_at 0) (jan1_at 24)
  = Ok [occ_a; occ_b] /\
  Forall has_start [occ_a; occ_b] /\
  Forall no_overflow [occ_a; occ_b] /\
  exists l,
    async_get_events no_iso (watcher None) (jan1_world 9)
      (jan1_at 0) (jan1_at 24) = Ok l.
Proof.
  intros ical.
  assert (H1 : icalendar_get_events (watcher None) (jan1_world 9)
                 (jan1_at 0) (jan1_at 24) = Ok [occ_a; occ_b]) by reflexivity.
  assert (H2 : Forall has_start [occ_a; occ_b])
    by (repeat constructor; discriminate).
  assert (H3 : Forall no_overflow [occ_a; occ_b])
    by (repeat constructor; unfold no_overflow; vm_compute; discriminate).
  split; [exact H1|]. split; [exact H2|]. split; [exact H3|].
  exact (proj1 (proj2 (async_get_events_one_per_event no_iso (watcher None)
                         (jan1_world 9) (jan1_at 0) (jan1_at 24)))
           [occ_a; occ_b] H1 H2 H3).
Defined.

Lemma credentials_need_both_witness :
  "user" <> "" /\ "pw" <> "" /\
  auth (init "https://example.org/cal.ics" (Some "user") (Some "pw") 7 false
          None)
  = Some ("user", "pw").
Proof.
  assert (H1 : "user" <> "") by discriminate.
  assert (H2 : "pw" <> "") by discriminate.
  split; [exact H1|]. split; [exact H2|].
  exact (proj2 (proj1 (credentials_need_both (ical := canned [])
                         "https://example.org/cal.ics"
                         (Some "user") (Some "pw") 7 false None) "user" "pw")
           (conj eq_refl (conj eq_refl (conj H1 H2)))).
Defined.

(** A user name with an empty password is dropped. *)
Example empty_password_drops_credentials :
  auth (init "https://example.org/cal.ics" (Some "user") (Some "") 7 false None)
  = None.
Proof. reflexivity. Qed.

Lemma offset_reached_survives_empty_update_witness :
  let ical := canned [occ_b] in
  exists dev1 dev2,
    device_update office_device (jan1_world 9) = Ok dev1 /\
    device_state_attributes dev1 = true /\
    device_update dev1 (jan1_world 11) = Ok dev2 /\
    event (data dev2) = None /\
    _event dev2 = None /\
    device_state_attributes dev2 = true.
Proof.
  intros ical. do 2 eexists.
  split; [lazy; reflexivity|]. split; [reflexivity|].
  match goal with
  | |- device_update ?dev1 _ = _ /\ _ =>
      split; [lazy; reflexivity|]; split; [reflexivity|];
      refine (offset_reached_survives_empty_update dev1 _ (jan1_world 11) _ _);
      reflexivity
  end.
Defined.

Lemma platform_entity_invariant_witness :
  let ical := canned [occ_a; occ_b; bare] in
  In office_device (setup_platform office) /\
  platform_invariant office
    (run_updates [jan1_world 9; world "" 0 0; jan1_world 11] office_device).
Proof.
  intros ical.
  assert (H : In office_device (setup_platform office))
    by (left; reflexivity).
  split; [exact H|].
  exact (platform_entity_invariant office office_device
           [jan1_world 9; world "" 0 0; jan1_world 11] H).
Defined.

End WithCalendar.

Section PingSample.

Import Ping PingCycle.

#[local] Existing Instance small_ids.

Lemma ping_ids_cycle_witness :
  DEFAULT_START_ID <= MAX_PING_ID /\
  DEFAULT_START_ID <= 2 <= MAX_PING_ID /\
  calls 4 (Some (mkPing None 2)) = Ok ([3; 1; 2; 3], Some (mkPing None 3)).
Proof.
  assert (H1 : DEFAULT_START_ID <= MAX_PING_ID) by (simpl; lia).
  assert (H2 : DEFAULT_START_ID <= PING_ID (mkPing None 2) <= MAX_PING_ID)
    by (simpl; lia).
  split; [exact H1|]. split; [exact H2|].
  exact (proj1 (PingCycleFacts.ping_ids_cycle (mkPing None 2) 4 H1 H2)).
Defined.

Lemma ping_ids_no_reuse_witness :
  Z.of_nat 3 <= period /\
  calls 3 (Some (mkPing None 2)) = Ok ([3; 1; 2], Some (mkPing None 2)) /\
  NoDup [3; 1; 2].
Proof.
  assert (H1 : DEFAULT_START_ID <= MAX_PING_ID) by (simpl; lia).
  assert (H2 : DEFAULT_START_ID <= PING_ID (mkPing None 2) <= MAX_PING_ID)
    by (simpl; lia).
  assert (H3 : Z.of_nat 3 <= period) by (vm_compute; discriminate).
  assert (H4 : calls 3 (Some (mkPing None 2))
               = Ok ([3; 1; 2], Some (mkPing None 2))) by reflexivity.
  split; [exact H3|]. split; [exact H4|].
  exact (PingCycleFacts.ping_ids_no_reuse (mkPing None 2) 3 _ _ H1 H2 H3 H4).
Defined.

Lemma ping_id_above_max_never_wraps_witness :
  MAX_PING_ID < 7 /\
  calls 3 (Some (mkPing None 7)) = Ok ([8; 9; 10], Some (mkPing None 10)).
Proof.
  assert (H : MAX_PING_ID < PING_ID (mkPing None 7)) by (simpl; lia).
  split; [exact H|].
  exact (PingCycleFacts.ping_id_above_max_never_wraps (mkPing None 7) 3 H).
Defined.

End PingSample.

End MoreSampleFacts.
